(** * The operations directory of lxd/db/operations.go

    A shallow embedding of the accessors of [lxd/db/operations.go] over a
    relational store.  The SQL texts are the literals of the Go source; the
    store is an executable model of database/sql restricted to the statements
    this package sends, with the tables of the cluster schema as lists of rows
    and with failures of the store injected through a fault plan.

    Go's int64 and int are [Z] (ids are assigned by the database and stay far
    from the bounds); a slice is a [list], the nil slice and the empty slice
    both [[]]; a pair (value, error) is a product with [option error], where
    [None] is the nil error. *)

From Stdlib Require Import ZArith Lia Ascii.
From Stdlib Require String.
From stdpp Require Import base tactics decidable option numbers list strings sorting.

Local Open Scope Z_scope.

(** ** Values, errors *)

(** A Go [interface{}] bound to a placeholder or read from a column. *)
Inductive value :=
| Null
| Int (n : Z)
| Text (s : string).

#[global] Instance value_eq_dec : EqDecision value.
Proof. solve_decision. Defined.

(** Go [error] values; the nil error is [None] of [option error]. *)
Inductive error :=
| ErrNoSuchObject                               (* db.ErrNoSuchObject *)
| Errorf (format : string) (args : list value)  (* fmt.Errorf(format, args...) *)
| Wrap (err : error) (message : string)         (* errors.Wrap(err, message) *)
| StoreError (message : string).                (* reported by database/sql *)

(** errors.Cause of github.com/pkg/errors. *)
Fixpoint Cause (e : error) : error :=
  match e with
  | Wrap e' _ => Cause e'
  | _ => e
  end.

(** ** Data model *)

Definition OperationType := Z.

(** type Operation struct; the field [Type] is spelled [Type_]. *)
Record Operation := mkOperation {
  ID : Z;
  UUID : string;
  NodeAddress : string;
  Type_ : OperationType
}.

#[global] Instance Operation_eq_dec : EqDecision Operation.
Proof. solve_decision. Defined.

(** null := Operation{} *)
Definition null : Operation :=
  {| ID := 0; UUID := ""; NodeAddress := ""; Type_ := 0 |}.

(** Rows of the tables [operations], [nodes] and [projects]. *)
Record operations_row := mk_operations_row {
  op_id : Z;
  op_uuid : string;
  op_node_id : Z;
  op_type : Z;
  op_project_id : option Z
}.

Record nodes_row := mk_nodes_row {
  node_id : Z;
  node_address : string
}.

Record projects_row := mk_projects_row {
  project_id : Z;
  project_name : string
}.

#[global] Instance operations_row_eq_dec : EqDecision operations_row.
Proof. solve_decision. Defined.
#[global] Instance nodes_row_eq_dec : EqDecision nodes_row.
Proof. solve_decision. Defined.
#[global] Instance projects_row_eq_dec : EqDecision projects_row.
Proof. solve_decision. Defined.

(** The tables as lists of rows. *)
Record DB := mkDB {
  operations_tbl : list operations_row;
  nodes_tbl : list nodes_row;
  projects_tbl : list projects_row
}.

(** ** SQL texts of the source *)

Definition nl : string := String "010"%char "".

Definition operations_select : string :=
  nl +:+ "SELECT operations.id, uuid, nodes.address, type FROM operations JOIN nodes ON nodes.id = node_id ".

Definition operations_order : string := "ORDER BY operations.id".

(** The statement built by [operations] (lines 171-176). *)
Definition operations_sql (where_ : string) : string :=
  let sql := operations_select in
  let sql := if decide (where_ ≠ "") then sql +:+ ("WHERE " +:+ where_ +:+ " ") else sql in
  sql +:+ operations_order.

(** What follows the select list and the join in that statement. *)
Definition operations_tail (where_ : string) : string :=
  if decide (where_ ≠ "") then ("WHERE " +:+ where_ +:+ " ") +:+ operations_order else operations_order.

Definition GetLocalOperationsUUIDs_stmt : string :=
  "SELECT uuid FROM operations WHERE node_id=?".

Definition GetNodesWithRunningOperations_stmt : string :=
  nl +:+ "SELECT DISTINCT nodes.address" +:+
  nl +:+ "  FROM operations" +:+
  nl +:+ "  LEFT OUTER JOIN projects ON projects.id = operations.project_id" +:+
  nl +:+ "  JOIN nodes ON nodes.id = operations.node_id" +:+
  nl +:+ " WHERE projects.name = ? OR operations.project_id IS NULL" +:+
  nl.

Definition GetOperationsOfType_stmt : string :=
  nl +:+ "SELECT operations.id, operations.uuid, operations.type, nodes.address" +:+
  nl +:+ "  FROM operations" +:+
  nl +:+ "  LEFT JOIN projects on projects.id = operations.project_id" +:+
  nl +:+ "  JOIN nodes on nodes.id = operations.node_id" +:+
  nl +:+ "WHERE (projects.name = ? OR operations.project_id IS NULL) and operations.type = ?" +:+
  nl.

Definition RemoveOperation_stmt : string :=
  "DELETE FROM operations WHERE uuid=?".

Definition removeNodeOperations_stmt : string :=
  "DELETE FROM operations WHERE node_id=?".

(** ** The statements the model store understands

    The store parses exactly the statements this file sends (and the two of
    the helpers it calls) that it can prepare; any other text is an error of
    tx.Prepare, tx.Query or tx.Exec.  The statement [operations] builds for
    the clause [id=?] is one of those: in [operations JOIN nodes] both tables
    have a column [id] (the statement itself names [operations.id] and
    [nodes.id]), so the store rejects the unqualified [id] as ambiguous. *)

Inductive filter_clause := NoFilter | NodeIDEq | UUIDEq.

Inductive query :=
| SelectOperations (f : filter_clause)
| SelectLocalUUIDs
| SelectNodesWithOperations
| SelectOperationsOfType
| SelectProjectID.

Inductive modification :=
| DeleteOperationByUUID
| DeleteOperationsByNode
| UpsertOperation.

Inductive statement :=
| Select (q : query)
| Modify (x : modification).

Fixpoint strip_prefix (p s : string) : option string :=
  match p with
  | EmptyString => Some s
  | String a p' =>
      match s with
      | EmptyString => None
      | String b s' => if decide (a = b) then strip_prefix p' s' else None
      end
  end.

Definition parse_filter (tail : string) : option filter_clause :=
  if decide (tail = operations_order) then Some NoFilter
  else if decide (tail = "WHERE node_id=? " +:+ operations_order) then Some NodeIDEq
  else if decide (tail = "WHERE uuid=? " +:+ operations_order) then Some UUIDEq
  else None.

(** Modelled from the spec: the text of the project lookup of GetProjectID,
    which is not part of the given sources (section 6: a project-name-to-ID
    resolver). *)
Definition GetProjectID_stmt : string :=
  "SELECT projects.id FROM projects WHERE projects.name = ?".

(** Modelled from the spec: the text query.UpsertObject sends for the table
    [operations] and the columns of CreateOperation (section 4.1: insert or
    replace on the column set uuid, node_id, type, project_id). *)
Definition UpsertObject_sql (table : string) (columns : list string) : string :=
  "INSERT OR REPLACE INTO " +:+ table +:+ " (" +:+ String.concat ", " columns +:+ ") VALUES (" +:+
  String.concat ", " (replicate (length columns) "?") +:+ ")".

Definition operations_columns : list string := ["uuid"; "node_id"; "type"; "project_id"].

Definition parse (sql : string) : option statement :=
  match strip_prefix operations_select sql with
  | Some tail => Select ∘ SelectOperations <$> parse_filter tail
  | None =>
      if decide (sql = GetLocalOperationsUUIDs_stmt) then Some (Select SelectLocalUUIDs)
      else if decide (sql = GetNodesWithRunningOperations_stmt) then Some (Select SelectNodesWithOperations)
      else if decide (sql = GetOperationsOfType_stmt) then Some (Select SelectOperationsOfType)
      else if decide (sql = GetProjectID_stmt) then Some (Select SelectProjectID)
      else if decide (sql = RemoveOperation_stmt) then Some (Modify DeleteOperationByUUID)
      else if decide (sql = removeNodeOperations_stmt) then Some (Modify DeleteOperationsByNode)
      else if decide (sql = UpsertObject_sql "operations" operations_columns) then Some (Modify UpsertOperation)
      else None
  end.

(** Number of [?] placeholders. *)
Definition placeholders (st : statement) : nat :=
  match st with
  | Select (SelectOperations NoFilter) => 0
  | Select (SelectOperations _) => 1
  | Select SelectLocalUUIDs => 1
  | Select SelectNodesWithOperations => 1
  | Select SelectOperationsOfType => 2
  | Select SelectProjectID => 1
  | Modify DeleteOperationByUUID => 1
  | Modify DeleteOperationsByNode => 1
  | Modify UpsertOperation => 4
  end%nat.

(** ** Relational meaning of the statements *)

(** [FROM operations JOIN nodes ON nodes.id = node_id]: the node rows that
    join one operations row. *)
Definition join_nodes (db : DB) (o : operations_row) : list (operations_row * nodes_row) :=
  (λ n, (o, n)) <$> filter (λ n, node_id n = op_node_id o) (nodes_tbl db).

(** [LEFT (OUTER) JOIN projects ON projects.id = operations.project_id]: the
    project rows that join one operations row, or the all-NULL row. *)
Definition left_join_projects (db : DB) (o : operations_row) : list (option projects_row) :=
  match filter (λ p, Some (project_id p) = op_project_id o) (projects_tbl db) with
  | [] => [None]
  | ps => Some <$> ps
  end.

(** [projects.name = ? OR operations.project_id IS NULL] *)
Definition project_visible (name : value) (o : operations_row) (p : option projects_row) : Prop :=
  Text ∘ project_name <$> p = Some name ∨ op_project_id o = None.

#[global] Instance project_visible_dec name o p : Decision (project_visible name o p).
Proof. unfold project_visible. apply _. Defined.

(** The placeholder comparisons of the [WHERE] fragments given to
    [operations]. *)
Definition filter_holds (f : filter_clause) (args : list value) (o : operations_row) : Prop :=
  match f, args with
  | NoFilter, _ => True
  | NodeIDEq, [v] => Int (op_node_id o) = v
  | UUIDEq, [v] => Text (op_uuid o) = v
  | _, _ => False
  end.

#[global] Instance filter_holds_dec f args o : Decision (filter_holds f args o).
Proof. destruct f, args as [|v [|w args]]; simpl; apply _. Defined.

(** A scan of the table [operations] goes by its key: the rows in the order
    of their ids, whatever the order of the list. *)
Definition by_id : relation operations_row :=
  λ a b, op_id a ≤ op_id b.

#[global] Instance by_id_dec a b : Decision (by_id a b).
Proof. unfold by_id. apply _. Defined.

Definition scan_operations (db : DB) : list operations_row :=
  merge_sort by_id (operations_tbl db).

(** [SELECT DISTINCT]: the first occurrence of each value stays. *)
Fixpoint distinct (l : list string) : list string :=
  match l with
  | [] => []
  | a :: l' => a :: filter (λ b, b ≠ a) (distinct l')
  end.

Definition by_operations_id : relation (operations_row * nodes_row) :=
  λ x y, op_id x.1 ≤ op_id y.1.

#[global] Instance by_operations_id_dec x y : Decision (by_operations_id x y).
Proof. unfold by_operations_id. apply _. Defined.

(** [SELECT operations.id, uuid, nodes.address, type FROM operations JOIN
    nodes ON nodes.id = node_id WHERE ... ORDER BY operations.id] *)
Definition select_operations (db : DB) (f : filter_clause) (args : list value) : list (operations_row * nodes_row) :=
  merge_sort by_operations_id
    (filter (λ x, filter_holds f args x.1) (operations_tbl db ≫= join_nodes db)).

(** The rows of the two statements with [LEFT JOIN projects ... JOIN nodes],
    before their [WHERE]; no [ORDER BY], so in the order of the scan of
    [operations]. *)
Definition join_projects_nodes (db : DB) : list (operations_row * option projects_row * nodes_row) :=
  o ← scan_operations db;
  p ← left_join_projects db o;
  (λ n, (o, p, n)) <$> filter (λ n, node_id n = op_node_id o) (nodes_tbl db).

Definition eval_query (db : DB) (q : query) (args : list value) : list (list value) :=
  match q, args with
  | SelectOperations f, _ =>
      (λ x, [Int (op_id x.1); Text (op_uuid x.1); Text (node_address x.2); Int (op_type x.1)])
        <$> select_operations db f args
  | SelectLocalUUIDs, [v] =>
      (λ o, [Text (op_uuid o)]) <$> filter (λ o, Int (op_node_id o) = v) (scan_operations db)
  | SelectNodesWithOperations, [name] =>
      (λ a, [Text a]) <$> distinct
        ((λ x, node_address x.2) <$> filter (λ x, project_visible name x.1.1 x.1.2) (join_projects_nodes db))
  | SelectOperationsOfType, [name; typ] =>
      (λ x, [Int (op_id x.1.1); Text (op_uuid x.1.1); Int (op_type x.1.1); Text (node_address x.2)])
        <$> filter (λ x, project_visible name x.1.1 x.1.2 ∧ Int (op_type x.1.1) = typ) (join_projects_nodes db)
  | SelectProjectID, [name] =>
      (λ p, [Int (project_id p)]) <$> filter (λ p, Text (project_name p) = name) (projects_tbl db)
  | _, _ => []
  end.

(** Largest id of the table, 0 when empty; the next surrogate key is one more. *)
Definition max_id (ops : list operations_row) : Z :=
  foldr (λ o m, Z.max (op_id o) m) 0 ops.

(** Outcome of a modification: the new table contents, the number of rows
    affected and the last inserted id. *)
Record outcome := mkOutcome {
  out_db : DB;
  out_affected : Z;
  out_inserted : Z
}.

Definition with_operations (db : DB) (ops : list operations_row) : DB :=
  {| operations_tbl := ops; nodes_tbl := nodes_tbl db; projects_tbl := projects_tbl db |}.

(** Modelled from the spec: the constraints of the table [operations]
    (section 3 and 6: uuid UNIQUE, node_id references nodes.id, project_id is
    NULL or references projects.id) as the store checks them on an insert; the
    schema is not part of the given sources. *)
Definition fk_violation (db : DB) (node : Z) (project : option Z) : bool :=
  bool_decide (node ∉ node_id <$> nodes_tbl db)
  || match project with
     | Some p => bool_decide (p ∉ project_id <$> projects_tbl db)
     | None => false
     end.

(** Modelled from the spec: [INSERT OR REPLACE] on the table [operations]
    (section 3: exactly one row per UUID, a row with the same identity is
    replaced, otherwise inserted; the id is assigned by the database). *)
Definition upsert_operation (db : DB) (uuid : string) (node : Z) (typ : Z) (project : option Z) : error + outcome :=
  if fk_violation db node project then inl (StoreError "FOREIGN KEY constraint failed")
  else
    let id := max_id (operations_tbl db) + 1 in
    let row := mk_operations_row id uuid node typ project in
    inr {| out_db := with_operations db (filter (λ o, op_uuid o ≠ uuid) (operations_tbl db) ++ [row]);
           out_affected := 1;
           out_inserted := id |}.

(** [DELETE FROM operations WHERE ...]: the rows that satisfy [P] go. *)
Definition delete_operations (db : DB) (P : operations_row → Prop) `{∀ o, Decision (P o)} : outcome :=
  {| out_db := with_operations db (filter (λ o, ¬ P o) (operations_tbl db));
     out_affected := Z.of_nat (length (filter P (operations_tbl db)));
     out_inserted := 0 |}.

Definition eval_exec (db : DB) (x : modification) (args : list value) : error + outcome :=
  match x, args with
  | DeleteOperationByUUID, [v] => inr (delete_operations db (λ o, Text (op_uuid o) = v))
  | DeleteOperationsByNode, [v] => inr (delete_operations db (λ o, Int (op_node_id o) = v))
  | UpsertOperation, [Text uuid; Int node; Int typ; Null] => upsert_operation db uuid node typ None
  | UpsertOperation, [Text uuid; Int node; Int typ; Int p] => upsert_operation db uuid node typ (Some p)
  | _, _ => inl (StoreError "datatype mismatch")
  end.

(** ** The store behind a [*sql.Tx] *)

(** What the store is going to report on the calls of one accessor; [None]
    everywhere is a store that works. *)
Record Faults := mkFaults {
  prepare_fault : option error;          (* tx.Prepare fails *)
  query_fault : option error;            (* tx.Query or stmt.Query fails *)
  rows_fault : option (nat * error);     (* rows.Next stops after n rows and rows.Err reports *)
  exec_fault : option error;             (* tx.Exec fails *)
  rows_affected_fault : option error;    (* result.RowsAffected fails *)
  last_insert_id_fault : option error    (* result.LastInsertId fails *)
}.

Definition no_faults : Faults :=
  mkFaults None None None None None None.

(** What the store is sent. *)
Inductive event :=
| EvPrepare (sql : string)
| EvQuery (sql : string) (args : list value)
| EvExec (sql : string) (args : list value).

Definition event_sql (ev : event) : string :=
  match ev with
  | EvPrepare sql | EvQuery sql _ | EvExec sql _ => sql
  end.

Record Tx := mkTx {
  db : DB;
  faults : Faults;
  log : list event
}.

(** type ClusterTx struct: the [tx] field is the store threaded by [M]. *)
Record ClusterTx := mkClusterTx {
  nodeID : Z
}.

(** Accessors run against the store of the enclosing transaction. *)
Definition M (A : Type) : Type := Tx → A * Tx.

#[global] Instance M_ret : MRet M := λ A a tx, (a, tx).
#[global] Instance M_bind : MBind M := λ A B f m tx, f (m tx).1 (m tx).2.

(** The store after it has been sent [evs]. *)
Definition logged (evs : list event) (tx : Tx) : Tx :=
  {| db := db tx; faults := faults tx; log := log tx ++ evs |}.

Definition record_event (ev : event) : M unit :=
  λ tx, ((), logged [ev] tx).

(** The events an accessor adds to the log. *)
Definition trace {A} (m : M A) (tx : Tx) : list event :=
  log (m {| db := db tx; faults := faults tx; log := [] |}).2.

(** *sql.Rows: the rows still to be read and what rows.Err reports once
    rows.Next has returned false. *)
Record Rows := mkRows {
  pending : list (list value);
  Rows_Err : option error
}.

Definition no_rows : Rows := mkRows [] None.

(** *sql.Stmt *)
Record Stmt := mkStmt {
  stmt_sql : string
}.

(** sql.Result *)
Record Result := mkResult {
  affected : Z;
  inserted : Z;
  affected_err : option error;
  inserted_err : option error
}.

Definition no_result : Result := mkResult 0 0 None None.

Definition RowsAffected (r : Result) : Z * option error :=
  match affected_err r with
  | Some e => (0, Some e)
  | None => (affected r, None)
  end.

Definition LastInsertId (r : Result) : Z * option error :=
  match inserted_err r with
  | Some e => (0, Some e)
  | None => (inserted r, None)
  end.

Definition syntax_error : error := StoreError "syntax error".
Definition ambiguous_id : error := StoreError "ambiguous column name: id".

(** What the store answers to a text it cannot prepare. *)
Definition parse_error (sql : string) : error :=
  if decide (sql = operations_sql "id=?") then ambiguous_id else syntax_error.
Definition arity_error : error := StoreError "wrong number of arguments".
Definition not_a_query : error := StoreError "statement returns no rows".

Definition run_query (sql : string) (args : list value) : M (Rows * option error) :=
  λ tx,
    match query_fault (faults tx) with
    | Some e => ((no_rows, Some e), tx)
    | None =>
        match parse sql with
        | None => ((no_rows, Some (parse_error sql)), tx)
        | Some st =>
            if decide (length args ≠ placeholders st) then ((no_rows, Some arity_error), tx)
            else
              match st with
              | Modify _ => ((no_rows, Some not_a_query), tx)
              | Select q =>
                  let rows := eval_query (db tx) q args in
                  match rows_fault (faults tx) with
                  | Some (n, e) => ((mkRows (take n rows) (Some e), None), tx)
                  | None => ((mkRows rows None, None), tx)
                  end
              end
        end
    end.

(** tx.Query(sql, args...) *)
Definition tx_Query (sql : string) (args : list value) : M (Rows * option error) :=
  record_event (EvQuery sql args);; run_query sql args.

Definition run_prepare (sql : string) : M (Stmt * option error) :=
  λ tx,
    match prepare_fault (faults tx) with
    | Some e => ((mkStmt "", Some e), tx)
    | None =>
        match parse sql with
        | None => ((mkStmt "", Some (parse_error sql)), tx)
        | Some _ => ((mkStmt sql, None), tx)
        end
    end.

(** tx.Prepare(sql) *)
Definition tx_Prepare (sql : string) : M (Stmt * option error) :=
  record_event (EvPrepare sql);; run_prepare sql.

(** stmt.Query(args...) *)
Definition stmt_Query (stmt : Stmt) (args : list value) : M (Rows * option error) :=
  record_event (EvQuery (stmt_sql stmt) args);; run_query (stmt_sql stmt) args.

Definition run_exec (sql : string) (args : list value) : M (Result * option error) :=
  λ tx,
    match exec_fault (faults tx) with
    | Some e => ((no_result, Some e), tx)
    | None =>
        match parse sql with
        | None => ((no_result, Some (parse_error sql)), tx)
        | Some st =>
            if decide (length args ≠ placeholders st) then ((no_result, Some arity_error), tx)
            else
              match st with
              | Select _ => ((no_result, None), tx)
              | Modify x =>
                  match eval_exec (db tx) x args with
                  | inl e => ((no_result, Some e), tx)
                  | inr out =>
                      ((mkResult (out_affected out) (out_inserted out)
                          (rows_affected_fault (faults tx)) (last_insert_id_fault (faults tx)), None),
                       {| db := out_db out; faults := faults tx; log := log tx |})
                  end
              end
        end
    end.

(** tx.Exec(sql, args...) *)
Definition tx_Exec (sql : string) (args : list value) : M (Result * option error) :=
  record_event (EvExec sql args);; run_exec sql args.

(** ** rows.Scan *)

(** The destinations of a Scan: pointers to the fields of an Operation. *)
Inductive field := FID | FUUID | FNodeAddress | FType.

Definition conversion_error : error := StoreError "Scan: unsupported conversion".
Definition destination_error : error := StoreError "Scan: wrong number of destination arguments".

(** Storing one column through one pointer.  The columns read here are
    INTEGER for the ids and the type and TEXT for the uuid and the address;
    any other pairing is reported as a conversion error. *)
Definition assign (f : field) (v : value) (op : Operation) : Operation * option error :=
  match f, v with
  | FID, Int n => ({| ID := n; UUID := UUID op; NodeAddress := NodeAddress op; Type_ := Type_ op |}, None)
  | FUUID, Text s => ({| ID := ID op; UUID := s; NodeAddress := NodeAddress op; Type_ := Type_ op |}, None)
  | FNodeAddress, Text s => ({| ID := ID op; UUID := UUID op; NodeAddress := s; Type_ := Type_ op |}, None)
  | FType, Int n => ({| ID := ID op; UUID := UUID op; NodeAddress := NodeAddress op; Type_ := n |}, None)
  | _, _ => (op, Some conversion_error)
  end.

(** Columns are stored left to right until one fails. *)
Fixpoint assign_all (dest : list field) (row : list value) (op : Operation) : Operation * option error :=
  match dest, row with
  | f :: dest', v :: row' =>
      let r := assign f v op in
      match r.2 with
      | Some e => (r.1, Some e)
      | None => assign_all dest' row' r.1
      end
  | _, _ => (op, None)
  end.

(** rows.Scan(dest...) into a fresh Operation. *)
Definition Scan (dest : list field) (row : list value) (op : Operation) : Operation * option error :=
  if decide (length dest ≠ length row) then (op, Some destination_error)
  else assign_all dest row op.

(** The loop [for rows.Next() { ... rows.Scan(dest...) ... append }]: the
    objects appended so far and the error of the Scan that stopped it. *)
Fixpoint scan_rows (dest : list field) (pending : list (list value)) : list Operation * option error :=
  match pending with
  | [] => ([], None)
  | row :: rest =>
      let r := Scan dest row null in
      match r.2 with
      | Some e => ([r.1], Some e)
      | None => let k := scan_rows dest rest in (r.1 :: k.1, k.2)
      end
  end.

(** rows.Scan(&value) for a string. *)
Definition Scan_string (row : list value) : string * option error :=
  match row with
  | [Text s] => (s, None)
  | [_] => ("", Some conversion_error)
  | _ => ("", Some destination_error)
  end.

Fixpoint scan_strings (pending : list (list value)) : list string * option error :=
  match pending with
  | [] => ([], None)
  | row :: rest =>
      let r := Scan_string row in
      match r.2 with
      | Some e => ([], Some e)
      | None => let k := scan_strings rest in (r.1 :: k.1, k.2)
      end
  end.

(** ** Helpers of the package query and of ClusterTx that the accessors call *)

(** Modelled from the spec: query.SelectObjects, which is not part of the
    given sources (section 4.1 and 7: runs the statement, reads every row into
    the destinations, surfaces every failure of the store).  The objects
    written through [dest] come back with the error. *)
Definition SelectObjects (stmt : Stmt) (dest : list field) (args : list value) : M (list Operation * option error) :=
  '(rows, err) ← stmt_Query stmt args;
  match err with
  | Some _ => mret ([], err)
  | None =>
      let '(objects, err) := scan_rows dest (pending rows) in
      match err with
      | Some _ => mret (objects, err)
      | None => mret (objects, Rows_Err rows)
      end
  end.

(** Modelled from the spec: query.SelectStrings, which is not part of the
    given sources (section 7: every failure of the store is surfaced). *)
Definition SelectStrings (query : string) (args : list value) : M (list string * option error) :=
  '(rows, err) ← tx_Query query args;
  match err with
  | Some _ => mret ([], err)
  | None =>
      let '(values, err) := scan_strings (pending rows) in
      match err with
      | Some _ => mret ([], err)
      | None =>
          match Rows_Err rows with
          | Some e => mret ([], Some e)
          | None => mret (values, None)
          end
      end
  end.

(** Modelled from the spec: query.UpsertObject, which is not part of the
    given sources (section 4.1: an upsert on the given columns that returns
    the surrogate key of the affected row; section 7: failures of the store
    are passed on). *)
Definition UpsertObject (table : string) (columns : list string) (values : list value) : M (Z * option error) :=
  if decide (length columns = 0%nat) then mret (-1, Some (Errorf "columns length is zero" []))
  else if decide (length columns ≠ length values) then
    mret (-1, Some (Errorf "columns length does not match values length" []))
  else
    '(result, err) ← tx_Exec (UpsertObject_sql table columns) values;
    match err with
    | Some _ => mret (-1, err)
    | None =>
        let '(id, err) := LastInsertId result in
        match err with
        | Some _ => mret (-1, err)
        | None => mret (id, None)
        end
    end.

(** Modelled from the spec: ClusterTx.GetProjectID, which is not part of the
    given sources (section 6: a project-name-to-ID resolver that fails
    distinguishably when the name is unknown; section 7: NotFound). *)
Definition GetProjectID (c : ClusterTx) (name : string) : M (Z * option error) :=
  '(rows, err) ← tx_Query GetProjectID_stmt [Text name];
  match err with
  | Some _ => mret (-1, err)
  | None =>
      match pending rows with
      | [] =>
          match Rows_Err rows with
          | Some e => mret (-1, Some e)
          | None => mret (-1, Some ErrNoSuchObject)
          end
      | [Int id] :: _ => mret (id, None)
      | _ :: _ => mret (-1, Some conversion_error)
      end
  end.

(** ** The accessors of lxd/db/operations.go *)

(** func (c *ClusterTx) operations(where string, args ...interface{}) *)
Definition operations (c : ClusterTx) (where_ : string) (args : list value) : M (list Operation * option error) :=
  let sql := operations_sql where_ in
  '(stmt, err) ← tx_Prepare sql;
  match err with
  | Some _ => mret ([], err)
  | None =>
      '(operations, err) ← SelectObjects stmt [FID; FUUID; FNodeAddress; FType] args;
      match err with
      | Some e => mret ([], Some (Wrap e "Failed to fetch operations"))
      | None => mret (operations, None)
      end
  end.

(** func (c *ClusterTx) GetLocalOperations() *)
Definition GetLocalOperations (c : ClusterTx) : M (list Operation * option error) :=
  operations c "node_id=?" [Int (nodeID c)].

(** func (c *ClusterTx) GetLocalOperationsUUIDs() *)
Definition GetLocalOperationsUUIDs (c : ClusterTx) : M (list string * option error) :=
  let stmt := GetLocalOperationsUUIDs_stmt in
  SelectStrings stmt [Int (nodeID c)].

(** func (c *ClusterTx) GetNodesWithRunningOperations(project string) *)
Definition GetNodesWithRunningOperations (c : ClusterTx) (project : string) : M (list string * option error) :=
  let stmt := GetNodesWithRunningOperations_stmt in
  SelectStrings stmt [Text project].

(** func (c *ClusterTx) GetOperationsOfType(projectName string, opType
    OperationType).  The [err] returned after the loop is the one bound by
    [c.tx.Query] on line 58: the [err] of the Scan is local to the loop body. *)
Definition GetOperationsOfType (c : ClusterTx) (projectName : string) (opType : OperationType) : M (list Operation * option error) :=
  let stmt := GetOperationsOfType_stmt in
  '(rows, err) ← tx_Query stmt [Text projectName; Int opType];
  match err with
  | Some _ => mret ([], err)
  | None =>
      let '(ops, err') := scan_rows [FID; FUUID; FType; FNodeAddress] (pending rows) in
      match err' with
      | Some _ => mret ([], err')
      | None =>
          match Rows_Err rows with
          | Some _ => mret ([], err)
          | None => mret (ops, None)
          end
      end
  end.

(** The [switch len(operations)] shared by the two accessors by key. *)
Definition single_operation (operations : list Operation) : Operation * option error :=
  match operations with
  | [] => (null, Some ErrNoSuchObject)
  | [op] => (op, None)
  | _ => (null, Some (Errorf "More than one operation matches" []))
  end.

(** func (c *ClusterTx) GetOperationWithID(opID int) *)
Definition GetOperationWithID (c : ClusterTx) (opID : Z) : M (Operation * option error) :=
  '(operations, err) ← operations c "id=?" [Int opID];
  match err with
  | Some _ => mret (null, err)
  | None => mret (single_operation operations)
  end.

(** func (c *ClusterTx) GetOperationByUUID(uuid string) *)
Definition GetOperationByUUID (c : ClusterTx) (uuid : string) : M (Operation * option error) :=
  '(operations, err) ← operations c "uuid=?" [Text uuid];
  match err with
  | Some _ => mret (null, err)
  | None => mret (single_operation operations)
  end.

(** func (c *ClusterTx) CreateOperation(project, uuid string, typ OperationType) *)
Definition CreateOperation (c : ClusterTx) (project uuid : string) (typ : OperationType) : M (Z * option error) :=
  let columns := ["uuid"; "node_id"; "type"; "project_id"] in
  if decide (project ≠ "") then
    '(projectID, err) ← GetProjectID c project;
    match err with
    | Some e => mret (-1, Some (Wrap e "Fetch project ID"))
    | None => UpsertObject "operations" columns [Text uuid; Int (nodeID c); Int typ; Int projectID]
    end
  else
    UpsertObject "operations" columns [Text uuid; Int (nodeID c); Int typ; Null].

(** func (c *ClusterTx) RemoveOperation(uuid string) *)
Definition RemoveOperation (c : ClusterTx) (uuid : string) : M (option error) :=
  '(result, err) ← tx_Exec RemoveOperation_stmt [Text uuid];
  match err with
  | Some _ => mret err
  | None =>
      let '(n, err) := RowsAffected result in
      match err with
      | Some _ => mret err
      | None =>
          if decide (n ≠ 1) then mret (Some (Errorf "query deleted %d rows instead of 1" [Int n]))
          else mret None
      end
  end.

(** func (c *ClusterTx) removeNodeOperations(nodeID int64) *)
Definition removeNodeOperations (c : ClusterTx) (nodeID : Z) : M (option error) :=
  '(_, err) ← tx_Exec removeNodeOperations_stmt [Int nodeID];
  match err with
  | Some _ => mret err
  | None => mret None
  end.

(** ** Notions the properties are stated with *)

(** The Operation an operations row and the node row it joins are read as. *)
Definition Operation_of (x : operations_row * nodes_row) : Operation :=
  {| ID := op_id x.1; UUID := op_uuid x.1; NodeAddress := node_address x.2; Type_ := op_type x.1 |}.

(** The node row with a given id (the first one, should there be several). *)
Definition node_of (db : DB) (nid : Z) : nodes_row :=
  default (mk_nodes_row 0 "") (head (filter (λ n, node_id n = nid) (nodes_tbl db))).

Definition as_Operation (db : DB) (o : operations_row) : Operation :=
  Operation_of (o, node_of db (op_node_id o)).

(** Constraints of the schema the joins with [nodes] rely on: nodes.id is a
    key and operations.node_id references it. *)
Record nodes_consistent (db : DB) : Prop := {
  nodes_pk : NoDup (node_id <$> nodes_tbl db);
  operations_fk_node : ∀ o, o ∈ operations_tbl db → op_node_id o ∈ node_id <$> nodes_tbl db
}.

(** The operation belongs to the project of that name. *)
Definition in_project (db : DB) (project : string) (o : operations_row) : Prop :=
  ∃ p, p ∈ projects_tbl db ∧ Some (project_id p) = op_project_id o ∧ project_name p = project.

(** ... or to no project at all. *)
Definition visible_in (db : DB) (project : string) (o : operations_row) : Prop :=
  in_project db project o ∨ op_project_id o = None.

Definition has_visible_operation (db : DB) (project : string) (n : nodes_row) : Prop :=
  ∃ o, o ∈ operations_tbl db ∧ op_node_id o = node_id n ∧ visible_in db project o.

(** The rows of [operations] with a given uuid. *)
Definition rows_with_uuid (db : DB) (uuid : string) : list operations_row :=
  filter (λ o, op_uuid o = uuid) (operations_tbl db).

(** The values CreateOperation binds to the columns uuid, node_id, type and
    project_id, a NULL project_id for [None]. *)
Definition upsert_args (uuid : string) (node typ : Z) (pid : option Z) : list value :=
  [Text uuid; Int node; Int typ; from_option Int Null pid].

(** The accessor sends the store what a call of [operations] sends it. *)
Definition through_operations {A} (m : M A) (c : ClusterTx) (tx : Tx) : Prop :=
  ∃ where_ args, trace m tx = trace (operations c where_ args) tx.

(** [needle] occurs in [s]. *)
Definition mentions (needle s : string) : bool :=
  match String.index 0 needle s with
  | Some _ => true
  | None => false
  end.

(** One call of an accessor, a change of what the store is going to report,
    or a change of the tables owned elsewhere. *)
Inductive step : Tx → Tx → Prop :=
| step_CreateOperation c project uuid typ tx :
    step tx (CreateOperation c project uuid typ tx).2
| step_RemoveOperation c uuid tx :
    step tx (RemoveOperation c uuid tx).2
| step_removeNodeOperations c n tx :
    step tx (removeNodeOperations c n tx).2
| step_GetLocalOperations c tx :
    step tx (GetLocalOperations c tx).2
| step_GetLocalOperationsUUIDs c tx :
    step tx (GetLocalOperationsUUIDs c tx).2
| step_GetNodesWithRunningOperations c project tx :
    step tx (GetNodesWithRunningOperations c project tx).2
| step_GetOperationsOfType c project typ tx :
    step tx (GetOperationsOfType c project typ tx).2
| step_GetOperationWithID c id tx :
    step tx (GetOperationWithID c id tx).2
| step_GetOperationByUUID c uuid tx :
    step tx (GetOperationByUUID c uuid tx).2
| step_faults f tx :
    step tx {| db := db tx; faults := f; log := log tx |}
| step_elsewhere nodes projects tx :
    step tx {| db := {| operations_tbl := operations_tbl (db tx); nodes_tbl := nodes; projects_tbl := projects |};
               faults := faults tx; log := log tx |}.

(** The states reached from an empty table of operations. *)
Inductive reachable : Tx → Prop :=
| reachable_empty tx : operations_tbl (db tx) = [] → reachable tx
| reachable_step tx tx' : reachable tx → step tx tx' → reachable tx'.

(** ** Example stores *)

Definition example_db : DB := {|
  operations_tbl := [mk_operations_row 1 "u1" 1 7 (Some 10);
                     mk_operations_row 2 "u2" 1 7 None;
                     mk_operations_row 3 "u3" 2 8 (Some 11)];
  nodes_tbl := [mk_nodes_row 1 "10.0.0.1"; mk_nodes_row 2 "10.0.0.2"; mk_nodes_row 3 "10.0.0.3"];
  projects_tbl := [mk_projects_row 10 "default"; mk_projects_row 11 "other"]
|}.

Definition example_tx : Tx := mkTx example_db no_faults [].

(** The same store with an iteration that breaks after the first row. *)
Definition example_tx_rows_err : Tx :=
  mkTx example_db (mkFaults None None (Some (1%nat, StoreError "connection lost")) None None None) [].

Definition node1 : ClusterTx := mkClusterTx 1.
Definition node3 : ClusterTx := mkClusterTx 3.

(** * Properties *)

(** ** Statement texts *)

Lemma strip_prefix_app p s : strip_prefix p (p +:+ s) = Some s.
Proof. induction p as [|a p IH]; simpl; [done|]. rewrite decide_True by done. done. Qed.

Lemma append_assoc (a b c : string) : (a +:+ b) +:+ c = a +:+ (b +:+ c).
Proof.
  induction a as [|x a IH]; [done|].
  change (String x ((a +:+ b) +:+ c) = String x (a +:+ (b +:+ c))). by rewrite IH.
Qed.

Lemma operations_sql_tail w : operations_sql w = operations_select +:+ operations_tail w.
Proof.
  unfold operations_sql, operations_tail. destruct (decide (w ≠ "")); [|done].
  apply append_assoc.
Qed.

Lemma parse_operations_sql w :
  parse (operations_sql w) = Select ∘ SelectOperations <$> parse_filter (operations_tail w).
Proof. unfold parse. by rewrite operations_sql_tail, strip_prefix_app. Qed.

(** ** Reading rows *)

Lemma scan_rows_operations (l : list (operations_row * nodes_row)) :
  scan_rows [FID; FUUID; FNodeAddress; FType]
    ((λ x, [Int (op_id x.1); Text (op_uuid x.1); Text (node_address x.2); Int (op_type x.1)]) <$> l)
  = (Operation_of <$> l, None).
Proof.
  induction l as [|x l IH]; [done|].
  rewrite fmap_cons. simpl. simpl in IH. rewrite IH. done.
Qed.

Lemma scan_rows_of_type {A} (g : A → operations_row * nodes_row) (l : list A) :
  scan_rows [FID; FUUID; FType; FNodeAddress]
    ((λ x, [Int (op_id (g x).1); Text (op_uuid (g x).1); Int (op_type (g x).1); Text (node_address (g x).2)]) <$> l)
  = (Operation_of ∘ g <$> l, None).
Proof.
  induction l as [|x l IH]; [done|].
  rewrite fmap_cons. simpl. simpl in IH. rewrite IH. done.
Qed.

Lemma scan_strings_text (l : list string) :
  scan_strings ((λ a, [Text a]) <$> l) = (l, None).
Proof. induction l as [|a l IH]; [done|]. rewrite fmap_cons. simpl. by rewrite IH. Qed.

Lemma scan_strings_text_fmap {A} (g : A → string) (l : list A) :
  scan_strings ((λ a, [Text (g a)]) <$> l) = (g <$> l, None).
Proof. induction l as [|a l IH]; [done|]. rewrite fmap_cons. simpl. by rewrite IH. Qed.

(** ** The filtered query *)

Ltac unfold_store :=
  unfold tx_Prepare, tx_Query, tx_Exec, stmt_Query, record_event, run_prepare, run_query, run_exec;
  unfold mbind, M_bind, mret, M_ret; simpl.

Lemma operations_run c w args tx f :
  faults tx = no_faults →
  parse (operations_sql w) = Some (Select (SelectOperations f)) →
  length args = placeholders (Select (SelectOperations f)) →
  operations c w args tx =
    ((Operation_of <$> select_operations (db tx) f args, None),
     logged [EvPrepare (operations_sql w); EvQuery (operations_sql w) args] tx).
Proof.
  intros Hf Hp Ha. destruct tx as [d fl lg]. simpl in Hf. subst fl.
  unfold operations, SelectObjects. unfold_store.
  rewrite Hp. simpl. rewrite Hp.
  rewrite decide_False by (rewrite Ha; auto). simpl.
  rewrite scan_rows_operations. simpl. unfold logged. simpl. rewrite <- app_assoc. done.
Qed.

Lemma operations_cases c w args tx :
  (∃ e, (operations c w args tx).1 = ([], Some e)) ∨
  (∃ f, parse (operations_sql w) = Some (Select (SelectOperations f)) ∧
        (operations c w args tx).1 = (Operation_of <$> select_operations (db tx) f args, None)).
Proof.
  destruct (parse (operations_sql w)) as [st|] eqn:Hp.
  2:{ left. unfold operations, SelectObjects. unfold_store.
      rewrite Hp. destruct (prepare_fault (faults tx)); simpl; eauto. }
  pose proof (parse_operations_sql w) as Hp'. rewrite Hp in Hp'.
  destruct (parse_filter (operations_tail w)) as [f|]; [|done]. simpl in Hp'. injection Hp' as ->.
  unfold operations, SelectObjects. unfold_store. rewrite Hp.
  destruct (prepare_fault (faults tx)); simpl; [eauto|].
  destruct (query_fault (faults tx)); simpl; [eauto|]. rewrite Hp.
  case_decide; simpl; [eauto|].
  destruct (rows_fault (faults tx)) as [[n e]|]; simpl.
  - left. destruct (scan_rows _ _) as [l [e'|]]; simpl; eauto.
  - right. exists f. rewrite scan_rows_operations. simpl. done.
Qed.

Lemma operations_db c w args tx : db (operations c w args tx).2 = db tx.
Proof.
  unfold operations, SelectObjects. unfold_store.
  repeat (case_match; simpl; try done).
Qed.

(** ** Joining with [nodes] under the constraints of the schema *)

Lemma filter_key_absent {A B} `{EqDecision B} (f : A → B) (l : list A) (k : B) :
  k ∉ f <$> l → filter (λ y, f y = k) l = [].
Proof.
  induction l as [|y l IH]; [done|].
  rewrite fmap_cons. intros [Hne Hk]%not_elem_of_cons.
  rewrite filter_cons_False by congruence. auto.
Qed.

Lemma filter_key_unique {A B} `{EqDecision B} (f : A → B) (l : list A) (x : A) :
  NoDup (f <$> l) → x ∈ l → filter (λ y, f y = f x) l = [x].
Proof.
  induction l as [|y l IH]; intros Hnd Hin; [by apply elem_of_nil in Hin|].
  rewrite fmap_cons in Hnd. apply NoDup_cons in Hnd as [Hy Hnd].
  apply elem_of_cons in Hin as [->|Hin].
  - rewrite filter_cons_True by done. f_equal. by apply filter_key_absent.
  - rewrite filter_cons_False; [by apply IH|].
    intros Heq. apply Hy. rewrite Heq. by apply list_elem_of_fmap_2.
Qed.

Lemma key_determines_row {A B} `{EqDecision B} (f : A → B) (l : list A) (x y : A) :
  NoDup (f <$> l) → x ∈ l → y ∈ l → f x = f y → x = y.
Proof.
  intros Hnd Hx Hy Heq.
  assert (x ∈ filter (λ z, f z = f y) l) as Hin by (by apply list_elem_of_filter).
  rewrite (filter_key_unique f l y Hnd Hy) in Hin. by apply list_elem_of_singleton in Hin.
Qed.

Lemma at_most_one_per_key {A B} `{EqDecision B} (f : A → B) (l : list A) (k : B) :
  NoDup (f <$> l) → (length (filter (λ y, f y = k) l) ≤ 1)%nat.
Proof.
  intros Hnd. destruct (decide (k ∈ f <$> l)) as [Hin|Hin].
  - apply list_elem_of_fmap in Hin as (x & -> & Hx). by rewrite filter_key_unique.
  - rewrite filter_key_absent by done. simpl. lia.
Qed.

Lemma join_nodes_consistent db o :
  nodes_consistent db → o ∈ operations_tbl db →
  join_nodes db o = [(o, node_of db (op_node_id o))].
Proof.
  intros [Hpk Hfk] Ho. apply Hfk in Ho.
  apply list_elem_of_fmap in Ho as (n & Hn & Hin).
  unfold join_nodes, node_of. rewrite Hn.
  by rewrite (filter_key_unique node_id _ n Hpk Hin).
Qed.

Lemma bind_join_nodes db :
  nodes_consistent db →
  operations_tbl db ≫= join_nodes db = (λ o, (o, node_of db (op_node_id o))) <$> operations_tbl db.
Proof.
  intros Hc.
  assert (∀ l, (∀ o, o ∈ l → o ∈ operations_tbl db) →
    l ≫= join_nodes db = (λ o, (o, node_of db (op_node_id o))) <$> l) as H; [|by apply H].
  induction l as [|o l IH]; intros Hl; [done|].
  rewrite bind_cons, fmap_cons, join_nodes_consistent, IH; [done| |done|].
  - intros o' Ho'. apply Hl. by right.
  - apply Hl. by left.
Qed.

Lemma filter_fmap {A B} (g : A → B) (P : B → Prop) `{∀ y, Decision (P y)} (l : list A) :
  filter P (g <$> l) = g <$> filter (λ x, P (g x)) l.
Proof.
  induction l as [|x l IH]; [done|].
  rewrite fmap_cons, !filter_cons, IH. by destruct (decide (P (g x))).
Qed.

Lemma filter_none {A} (P : A → Prop) `{∀ y, Decision (P y)} (l : list A) :
  (∀ x, x ∈ l → ¬ P x) → filter P l = [].
Proof.
  induction l as [|x l IH]; intros Hl; [done|].
  rewrite filter_cons_False; [apply IH|]; intros; apply Hl; by constructor.
Qed.

#[local] Instance by_operations_id_total : Total by_operations_id.
Proof. intros x y. unfold by_operations_id. lia. Qed.

Lemma select_operations_consistent db f args :
  nodes_consistent db →
  Operation_of <$> select_operations db f args
  ≡ₚ as_Operation db <$> filter (filter_holds f args) (operations_tbl db).
Proof.
  intros Hc. unfold select_operations.
  rewrite merge_sort_Permutation, bind_join_nodes, filter_fmap by done.
  by rewrite <- list_fmap_compose.
Qed.

Lemma select_operations_sorted db f args :
  Sorted Z.le (ID <$> (Operation_of <$> select_operations db f args)).
Proof.
  rewrite <- list_fmap_compose.
  apply (Sorted_fmap _ by_operations_id); [done|].
  apply (Sorted_merge_sort by_operations_id).
Qed.

Lemma select_operations_joined db f args x :
  x ∈ select_operations db f args ↔
  x.1 ∈ operations_tbl db ∧ x.2 ∈ nodes_tbl db ∧ node_id x.2 = op_node_id x.1 ∧ filter_holds f args x.1.
Proof.
  unfold select_operations. rewrite merge_sort_Permutation, list_elem_of_filter, list_elem_of_bind.
  unfold join_nodes. split.
  - intros (Hf & o & Hx & Ho). apply list_elem_of_fmap in Hx as (n & -> & Hn).
    apply list_elem_of_filter in Hn as [Hn1 Hn2]. done.
  - intros (Ho & Hn & Hj & Hf). split; [done|]. exists x.1. split; [|done].
    apply list_elem_of_fmap. exists x.2. split; [by destruct x|].
    by apply list_elem_of_filter.
Qed.

(** ** Accessors by key *)

Lemma GetOperationWithID_unfold c opID tx :
  (GetOperationWithID c opID tx).1 =
    match (operations c "id=?" [Int opID] tx).1 with
    | (_, Some e) => (null, Some e)
    | (ops, None) => single_operation ops
    end.
Proof.
  unfold GetOperationWithID, mbind, M_bind, mret, M_ret.
  by destruct (operations c "id=?" [Int opID] tx) as [[ops [e|]] tx'].
Qed.

Lemma GetOperationByUUID_unfold c uuid tx :
  (GetOperationByUUID c uuid tx).1 =
    match (operations c "uuid=?" [Text uuid] tx).1 with
    | (_, Some e) => (null, Some e)
    | (ops, None) => single_operation ops
    end.
Proof.
  unfold GetOperationByUUID, mbind, M_bind, mret, M_ret.
  by destruct (operations c "uuid=?" [Text uuid] tx) as [[ops [e|]] tx'].
Qed.

Lemma single_operation_error ops op e :
  single_operation ops = (op, Some e) → op = null.
Proof. destruct ops as [|a [|b ops]]; simpl; congruence. Qed.

Lemma single_operation_spec db f args :
  nodes_consistent db →
  let matching := filter (filter_holds f args) (operations_tbl db) in
  let r := single_operation (Operation_of <$> select_operations db f args) in
  (∀ o, matching = [o] → r = (as_Operation db o, None)) ∧
  (matching = [] → r = (null, Some ErrNoSuchObject)) ∧
  ((1 < length matching)%nat →
     r.1 = null ∧ ∃ e, r.2 = Some e ∧ e ≠ ErrNoSuchObject ∧ Cause e ≠ ErrNoSuchObject).
Proof.
  intros Hc matching r. subst r.
  pose proof (select_operations_consistent db f args Hc) as Hperm.
  fold matching in Hperm. split; [|split].
  - intros o Ho. rewrite Ho in Hperm. apply Permutation_singleton_r in Hperm. by rewrite Hperm.
  - intros Ho. rewrite Ho in Hperm. apply Permutation_nil_r in Hperm. by rewrite Hperm.
  - intros Hlen. apply Permutation_length in Hperm. rewrite (length_fmap (as_Operation db)) in Hperm.
    destruct (Operation_of <$> select_operations db f args) as [|a [|b l]]; simpl in *; [lia..|].
    split; [done|]. eexists. split; [done|]. by split.
Qed.

(** C10: whenever GetOperationWithID or GetOperationByUUID returns a non-nil
    error, whatever the store did, the Operation returned with it is the zero
    value [Operation{}]. *)
Theorem by_key_error_returns_null (c : ClusterTx) (tx : Tx) (opID : Z) (uuid : string) (op : Operation) (e : error) :
  (GetOperationWithID c opID tx).1 = (op, Some e) ∨ (GetOperationByUUID c uuid tx).1 = (op, Some e) →
  op = null ∧ ID op = 0 ∧ UUID op = "" ∧ NodeAddress op = "" ∧ Type_ op = 0.
Proof.
  intros H. assert (op = null) as ->; [|done].
  destruct H as [H|H]; [rewrite GetOperationWithID_unfold in H|rewrite GetOperationByUUID_unfold in H].
  - destruct (operations c "id=?" [Int opID] tx).1 as [ops [e'|]]; [congruence|].
    by eapply single_operation_error.
  - destruct (operations c "uuid=?" [Text uuid] tx).1 as [ops [e'|]]; [congruence|].
    by eapply single_operation_error.
Qed.

Lemma by_key_error_returns_null_witness :
  (GetOperationByUUID node1 "no such uuid" example_tx).1 = (null, Some ErrNoSuchObject) ∧
  null = null ∧ ID null = 0 ∧ UUID null = "" ∧ NodeAddress null = "" ∧ Type_ null = 0.
Proof.
  split; [vm_compute; reflexivity|].
  apply (by_key_error_returns_null node1 example_tx 0 "no such uuid" null ErrNoSuchObject).
  right. vm_compute. reflexivity.
Defined.

Lemma example_db_consistent : nodes_consistent example_db.
Proof.
  split.
  - apply (bool_decide_unpack _). vm_compute. exact I.
  - apply Forall_forall. apply (bool_decide_unpack _). vm_compute. exact I.
Qed.

Lemma operations_ambiguous_id c args tx :
  operations c "id=?" args tx =
    (([], Some (default ambiguous_id (prepare_fault (faults tx)))),
     logged [EvPrepare (operations_sql "id=?")] tx).
Proof.
  unfold operations, SelectObjects. unfold_store.
  by destruct (prepare_fault (faults tx)).
Qed.

(** C3 fails on GetOperationWithID: the statement [operations] builds for
    the clause [id=?] names the column id of the join of operations and nodes
    without its table, the store rejects it when it is prepared, and the
    accessor returns the zero Operation with that error for every id: not the
    row when one row has the id (id 3 of the example store), and not
    ErrNoSuchObject when none has (id 99). *)
Theorem GetOperationWithID_ambiguous_id (c : ClusterTx) (opID : Z) (tx : Tx) :
  (GetOperationWithID c opID tx).1
    = (null, Some (default ambiguous_id (prepare_fault (faults tx)))) ∧
  trace (GetOperationWithID c opID) tx = [EvPrepare (operations_sql "id=?")] ∧
  operations_sql "id=?" = operations_select +:+ "WHERE id=? ORDER BY operations.id" ∧
  mentions "operations JOIN nodes ON nodes.id" operations_select = true ∧
  ambiguous_id ≠ ErrNoSuchObject ∧
  filter (λ o, op_id o = 3) (operations_tbl example_db) = [mk_operations_row 3 "u3" 2 8 (Some 11)] ∧
  (GetOperationWithID node1 3 example_tx).1 = (null, Some ambiguous_id) ∧
  filter (λ o, op_id o = 99) (operations_tbl example_db) = [] ∧
  (GetOperationWithID node1 99 example_tx).1 = (null, Some ambiguous_id).
Proof.
  split.
  { rewrite GetOperationWithID_unfold, operations_ambiguous_id. simpl.
    by destruct (prepare_fault (faults tx)). }
  split.
  { unfold trace, GetOperationWithID, mbind, M_bind, mret, M_ret.
    rewrite operations_ambiguous_id. simpl. by destruct (prepare_fault (faults tx)). }
  repeat split; by vm_compute.
Qed.

(** X15: with a store that works and a consistent schema,
    GetOperationByUUID returns the matching operation when exactly one row
    has the uuid, fails with ErrNoSuchObject (and the zero Operation) when
    none has, and fails with another error, whose cause is not
    ErrNoSuchObject, when several have. *)
Theorem by_uuid_single_match (c : ClusterTx) (tx : Tx) :
  faults tx = no_faults → nodes_consistent (db tx) →
  (∀ uuid,
     let matching := filter (λ o, op_uuid o = uuid) (operations_tbl (db tx)) in
     let r := (GetOperationByUUID c uuid tx).1 in
     (∀ o, matching = [o] → r = (as_Operation (db tx) o, None)) ∧
     (matching = [] → r = (null, Some ErrNoSuchObject)) ∧
     ((1 < length matching)%nat →
        r.1 = null ∧ ∃ e, r.2 = Some e ∧ e ≠ ErrNoSuchObject ∧ Cause e ≠ ErrNoSuchObject)).
Proof.
  intros Hf Hc uuid matching r. subst r.
  rewrite GetOperationByUUID_unfold, (operations_run _ _ _ _ UUIDEq) by done. simpl.
  assert (matching = filter (filter_holds UUIDEq [Text uuid]) (operations_tbl (db tx))) as ->.
  { apply list_filter_iff. intros o. simpl. split; [by intros ->|congruence]. }
  by apply single_operation_spec.
Qed.

Lemma by_uuid_single_match_witness :
  (GetOperationByUUID node1 "u3" example_tx).1 = (mkOperation 3 "u3" "10.0.0.2" 8, None) ∧
  (GetOperationByUUID node1 "abc-1" example_tx).1 = (null, Some ErrNoSuchObject).
Proof.
  pose proof (by_uuid_single_match node1 example_tx eq_refl example_db_consistent) as Huuid.
  split.
  - apply (proj1 (Huuid "u3") (mk_operations_row 3 "u3" 2 8 (Some 11))). vm_compute. reflexivity.
  - apply (proj1 (proj2 (Huuid "abc-1"))). vm_compute. reflexivity.
Defined.

(** ** Listing the operations of the local node *)

Lemma GetLocalOperations_run c tx :
  faults tx = no_faults →
  (GetLocalOperations c tx).1 =
    (Operation_of <$> select_operations (db tx) NodeIDEq [Int (nodeID c)], None).
Proof. intros Hf. unfold GetLocalOperations. by rewrite (operations_run _ _ _ _ NodeIDEq). Qed.

Lemma filter_node_id_eq (ops : list operations_row) (n : Z) :
  filter (filter_holds NodeIDEq [Int n]) ops = filter (λ o, op_node_id o = n) ops.
Proof. apply list_filter_iff. intros o. simpl. split; [congruence|by intros ->]. Qed.

(** C8: with a store that works and a consistent schema, GetLocalOperations
    returns, with a nil error and in the order of their ids, exactly the
    operations whose node_id is the node of the transaction; when that node
    has none the result is the empty sequence, still with a nil error. *)
Theorem GetLocalOperations_local (c : ClusterTx) (tx : Tx) :
  faults tx = no_faults → nodes_consistent (db tx) →
  ∃ ops,
    (GetLocalOperations c tx).1 = (ops, None) ∧
    ops ≡ₚ as_Operation (db tx) <$> filter (λ o, op_node_id o = nodeID c) (operations_tbl (db tx)) ∧
    Sorted Z.le (ID <$> ops) ∧
    ((∀ o, o ∈ operations_tbl (db tx) → op_node_id o ≠ nodeID c) → ops = []).
Proof.
  intros Hf Hc. eexists. split; [by apply GetLocalOperations_run|].
  assert (Operation_of <$> select_operations (db tx) NodeIDEq [Int (nodeID c)]
          ≡ₚ as_Operation (db tx) <$> filter (λ o, op_node_id o = nodeID c) (operations_tbl (db tx))) as Hperm.
  { by rewrite select_operations_consistent, filter_node_id_eq. }
  split; [done|]. split; [apply select_operations_sorted|].
  intros Hnone. apply Permutation_nil_r. rewrite Hperm.
  replace (filter _ _) with (@nil operations_row); [done|].
  symmetry. apply filter_none. intros o Ho. by apply Hnone.
Qed.

Lemma GetLocalOperations_local_witness :
  (GetLocalOperations node1 example_tx).1 =
    ([mkOperation 1 "u1" "10.0.0.1" 7; mkOperation 2 "u2" "10.0.0.1" 7], None) ∧
  (GetLocalOperations node3 example_tx).1 = ([], None).
Proof.
  split; [vm_compute; reflexivity|].
  destruct (GetLocalOperations_local node3 example_tx eq_refl example_db_consistent)
    as (ops & Hr & _ & _ & Hnone).
  rewrite Hr. f_equal. apply Hnone.
  apply Forall_forall. apply (bool_decide_unpack _). vm_compute. exact I.
Defined.

(** ** Deleting *)

Lemma RemoveOperation_run c uuid tx :
  exec_fault (faults tx) = None →
  RemoveOperation c uuid tx =
    (match rows_affected_fault (faults tx) with
     | Some e => Some e
     | None =>
         let n := Z.of_nat (length (filter (λ o, Text (op_uuid o) = Text uuid) (operations_tbl (db tx)))) in
         if decide (n ≠ 1) then Some (Errorf "query deleted %d rows instead of 1" [Int n]) else None
     end,
     {| db := with_operations (db tx) (filter (λ o, ¬ Text (op_uuid o) = Text uuid) (operations_tbl (db tx)));
        faults := faults tx;
        log := log tx ++ [EvExec RemoveOperation_stmt [Text uuid]] |}).
Proof.
  intros He. unfold RemoveOperation. unfold_store. rewrite He. simpl.
  unfold RowsAffected. simpl.
  destruct (rows_affected_fault (faults tx)); simpl; [done|].
  by case_decide.
Qed.

Lemma RemoveOperation_exec_fault c uuid tx e :
  exec_fault (faults tx) = Some e →
  RemoveOperation c uuid tx = (Some e, logged [EvExec RemoveOperation_stmt [Text uuid]] tx).
Proof. intros He. unfold RemoveOperation. unfold_store. by rewrite He. Qed.

Lemma filter_uuid_text (ops : list operations_row) (uuid : string) :
  filter (λ o, Text (op_uuid o) = Text uuid) ops = filter (λ o, op_uuid o = uuid) ops.
Proof. apply list_filter_iff. intros o. split; [congruence|by intros ->]. Qed.

Lemma filter_not_uuid_text (ops : list operations_row) (uuid : string) :
  filter (λ o, ¬ Text (op_uuid o) = Text uuid) ops = filter (λ o, op_uuid o ≠ uuid) ops.
Proof. apply list_filter_iff. intros o. split; intros H ?; apply H; congruence. Qed.

Lemma filter_after_delete {A} (P : A → Prop) `{∀ x, Decision (P x)} (l : list A) :
  filter P (filter (λ x, ¬ P x) l) = [].
Proof.
  apply filter_none. intros x Hx.
  by apply list_elem_of_filter in Hx as [Hx _].
Qed.

(** C6: RemoveOperation returns a non-nil error when the delete affected no
    row and when it affected several, returns nil exactly when the store
    worked and one row was deleted, and after a successful call no row with
    that uuid remains: the table then holds the rows it held before without
    the one row that had the uuid, and nothing else has changed.  Whenever
    the store executes the delete the rows with the uuid, and only they, are
    gone; when tx.Exec fails nothing changes. *)
Theorem RemoveOperation_exactly_one (c : ClusterTx) (uuid : string) (tx : Tx) :
  let n := length (rows_with_uuid (db tx) uuid) in
  let r := RemoveOperation c uuid tx in
  (n = 0%nat → is_Some r.1) ∧
  ((1 < n)%nat → is_Some r.1) ∧
  (r.1 = None ↔
     exec_fault (faults tx) = None ∧ rows_affected_fault (faults tx) = None ∧ n = 1%nat) ∧
  (r.1 = None → rows_with_uuid (db r.2) uuid = []) ∧
  (r.1 = None →
     ∃ o, rows_with_uuid (db tx) uuid = [o] ∧
          operations_tbl (db tx) ≡ₚ o :: operations_tbl (db r.2) ∧
          length (operations_tbl (db tx)) = S (length (operations_tbl (db r.2)))) ∧
  (exec_fault (faults tx) = None →
     operations_tbl (db r.2) = filter (λ o, op_uuid o ≠ uuid) (operations_tbl (db tx))) ∧
  (∀ e, exec_fault (faults tx) = Some e → r.1 = Some e ∧ db r.2 = db tx) ∧
  nodes_tbl (db r.2) = nodes_tbl (db tx) ∧
  projects_tbl (db r.2) = projects_tbl (db tx).
Proof.
  intros n r. subst n r. unfold rows_with_uuid.
  destruct (exec_fault (faults tx)) as [e|] eqn:He.
  { rewrite (RemoveOperation_exec_fault _ _ _ e He). simpl.
    split_and!; try done. all: try (intros; by eexists).
    split; [done|]. by intros (? & _). }
  rewrite (RemoveOperation_run _ _ _ He). simpl.
  rewrite filter_uuid_text, filter_not_uuid_text.
  destruct (rows_affected_fault (faults tx)) as [e|]; simpl.
  { split_and!; try done. all: try (intros; by eexists).
    split; [done|]. by intros (_ & ? & _). }
  pose proof (filter_app_complement (λ o, op_uuid o = uuid) (operations_tbl (db tx))) as Hsplit.
  destruct (filter (λ o, op_uuid o = uuid) (operations_tbl (db tx))) as [|o [|o' l]] eqn:Hrows; simpl.
  - split_and!; try done. all: try (intros; by eexists).
    split; [done|]. by intros (_ & _ & ?).
  - split_and!; try done; try lia.
    + intros _. apply (filter_after_delete (λ o, op_uuid o = uuid)).
    + intros _. exists o. split; [done|]. split; [symmetry; exact Hsplit|].
      symmetry. exact (Permutation_length Hsplit).
  - rewrite decide_True by lia.
    split_and!; try done. all: try (intros; by eexists).
    split; [done|]. intros (_ & _ & ?). lia.
Qed.

Lemma RemoveOperation_exactly_one_witness :
  (RemoveOperation node1 "u1" example_tx).1 = None ∧
  rows_with_uuid (db (RemoveOperation node1 "u1" example_tx).2) "u1" = [] ∧
  operations_tbl (db (RemoveOperation node1 "u1" example_tx).2)
    = [mk_operations_row 2 "u2" 1 7 None; mk_operations_row 3 "u3" 2 8 (Some 11)] ∧
  is_Some (RemoveOperation node1 "abc-1" example_tx).1.
Proof.
  destruct (RemoveOperation_exactly_one node1 "u1" example_tx) as (_ & _ & Hnil & Hgone & _ & Htbl & _).
  destruct (RemoveOperation_exactly_one node1 "abc-1" example_tx) as (Hzero & _).
  assert ((RemoveOperation node1 "u1" example_tx).1 = None) as H1.
  { apply Hnil. vm_compute. auto. }
  split; [exact H1|]. split; [exact (Hgone H1)|].
  split; [rewrite (Htbl eq_refl); vm_compute; reflexivity|].
  apply Hzero. vm_compute. reflexivity.
Defined.

Lemma removeNodeOperations_run c n tx :
  exec_fault (faults tx) = None →
  removeNodeOperations c n tx =
    (None,
     {| db := with_operations (db tx) (filter (λ o, ¬ Int (op_node_id o) = Int n) (operations_tbl (db tx)));
        faults := faults tx;
        log := log tx ++ [EvExec removeNodeOperations_stmt [Int n]] |}).
Proof. intros He. unfold removeNodeOperations. unfold_store. by rewrite He. Qed.

Lemma removeNodeOperations_exec_fault c n tx e :
  exec_fault (faults tx) = Some e →
  removeNodeOperations c n tx = (Some e, logged [EvExec removeNodeOperations_stmt [Int n]] tx).
Proof. intros He. unfold removeNodeOperations. unfold_store. by rewrite He. Qed.

Lemma select_operations_none db f args :
  filter (filter_holds f args) (operations_tbl db) = [] → select_operations db f args = [].
Proof.
  intros Hnone. apply Permutation_nil_r. unfold select_operations. rewrite merge_sort_Permutation.
  replace (filter _ _) with (@nil (operations_row * nodes_row)); [done|].
  symmetry. apply filter_none. intros x Hx Hf.
  apply list_elem_of_bind in Hx as (o & Hx & Ho).
  apply list_elem_of_fmap in Hx as (n & -> & _). simpl in Hf.
  eapply (filter_nil_not_elem_of _ _ o); eauto.
Qed.

(** C9: removeNodeOperations returns nil whenever the store executes the
    delete, also when no row matched, and then every operations row of that
    node is gone and nothing else; a GetLocalOperations of that node on a
    store that works returns the empty sequence afterwards. *)
Theorem removeNodeOperations_all (c : ClusterTx) (n : Z) (tx : Tx) :
  let r := removeNodeOperations c n tx in
  (r.1 = None ↔ exec_fault (faults tx) = None) ∧
  (exec_fault (faults tx) = None →
     operations_tbl (db r.2) = filter (λ o, op_node_id o ≠ n) (operations_tbl (db tx)) ∧
     ∀ c', nodeID c' = n → faults tx = no_faults → (GetLocalOperations c' r.2).1 = ([], None)).
Proof.
  intros r. subst r.
  destruct (exec_fault (faults tx)) as [e|] eqn:He.
  { rewrite (removeNodeOperations_exec_fault _ _ _ e He). simpl. by split. }
  rewrite (removeNodeOperations_run _ _ _ He). simpl. split; [done|]. intros _.
  assert (filter (λ o, ¬ Int (op_node_id o) = Int n) (operations_tbl (db tx))
          = filter (λ o, op_node_id o ≠ n) (operations_tbl (db tx))) as ->.
  { apply list_filter_iff. intros o. split; intros H ?; apply H; congruence. }
  split; [done|]. intros c' <- Hf.
  rewrite GetLocalOperations_run by done. simpl.
  rewrite select_operations_none; [done|]. simpl.
  rewrite filter_node_id_eq. apply (filter_after_delete (λ o, op_node_id o = nodeID c')).
Qed.

Lemma removeNodeOperations_all_witness :
  (removeNodeOperations node1 3 example_tx).1 = None ∧
  operations_tbl (db (removeNodeOperations node1 1 example_tx).2) = [mk_operations_row 3 "u3" 2 8 (Some 11)] ∧
  (GetLocalOperations node1 (removeNodeOperations node3 1 example_tx).2).1 = ([], None).
Proof.
  split; [|split].
  - apply (proj1 (removeNodeOperations_all node1 3 example_tx)). reflexivity.
  - rewrite (proj1 (proj2 (removeNodeOperations_all node1 1 example_tx) eq_refl)).
    vm_compute. reflexivity.
  - apply (proj2 (proj2 (removeNodeOperations_all node3 1 example_tx) eq_refl) node1); reflexivity.
Defined.

(** ** Nodes with running operations *)

Lemma tx_Query_state sql args tx : (tx_Query sql args tx).2 = logged [EvQuery sql args] tx.
Proof. unfold_store. by repeat case_match. Qed.

Lemma scan_operations_Permutation db : scan_operations db ≡ₚ operations_tbl db.
Proof. apply merge_sort_Permutation. Qed.

Lemma elem_of_scan_operations db o : o ∈ scan_operations db ↔ o ∈ operations_tbl db.
Proof. by rewrite scan_operations_Permutation. Qed.

Lemma elem_of_distinct (l : list string) (a : string) : a ∈ distinct l ↔ a ∈ l.
Proof.
  induction l as [|b l IH]; [done|]. simpl.
  rewrite !elem_of_cons, list_elem_of_filter, IH. split.
  - intros [->|[_ Hin]]; [by left|by right].
  - intros [->|Hin]; [by left|]. destruct (decide (a = b)) as [->|Hne]; [by left|by right].
Qed.

Lemma NoDup_distinct (l : list string) : NoDup (distinct l).
Proof.
  induction l as [|b l IH]; simpl; [apply NoDup_nil_2|].
  apply NoDup_cons. split; [|by apply NoDup_filter].
  by intros [? _]%list_elem_of_filter.
Qed.

Lemma GetNodesWithRunningOperations_run c project tx :
  faults tx = no_faults →
  (GetNodesWithRunningOperations c project tx).1 =
    (distinct ((λ x, node_address x.2) <$>
       filter (λ x, project_visible (Text project) x.1.1 x.1.2) (join_projects_nodes (db tx))), None).
Proof.
  intros Hf. destruct tx as [d fl lg]. simpl in Hf. subst fl.
  unfold GetNodesWithRunningOperations, SelectStrings. unfold_store.
  by rewrite scan_strings_text.
Qed.

Lemma elem_of_join_projects_nodes db o p n :
  (o, p, n) ∈ join_projects_nodes db ↔
  o ∈ operations_tbl db ∧ p ∈ left_join_projects db o ∧ n ∈ nodes_tbl db ∧ node_id n = op_node_id o.
Proof.
  unfold join_projects_nodes. rewrite list_elem_of_bind. split.
  - intros (o' & Hin & Ho'). apply list_elem_of_bind in Hin as (p' & Hin & Hp').
    apply list_elem_of_fmap in Hin as (n' & Heq & Hn'). injection Heq as -> -> ->.
    apply elem_of_scan_operations in Ho'.
    by apply list_elem_of_filter in Hn' as [? ?].
  - intros (Ho & Hp & Hn & Hj). exists o. split; [|by apply elem_of_scan_operations].
    apply list_elem_of_bind. exists p. split; [|done].
    apply list_elem_of_fmap. exists n. split; [done|]. by apply list_elem_of_filter.
Qed.

Lemma left_join_projects_visible db project o :
  (∃ p, p ∈ left_join_projects db o ∧ project_visible (Text project) o p) ↔ visible_in db project o.
Proof.
  unfold left_join_projects, project_visible, visible_in, in_project. split.
  - intros (p & Hp & [Hname|Hnull]); [|by right]. left.
    destruct p as [r|]; [|done]. simpl in Hname. injection Hname as Hname.
    exists r. destruct (filter _ _) as [|r0 rs] eqn:Hfilter.
    + apply list_elem_of_singleton in Hp. done.
    + rewrite <- Hfilter in Hp. apply list_elem_of_fmap in Hp as (r' & [= <-] & Hr).
      by apply list_elem_of_filter in Hr as [? ?].
  - intros [(r & Hr & Hid & Hname)|Hnull].
    + exists (Some r). split; [|left; simpl; by rewrite Hname].
      assert (r ∈ filter (λ p, Some (project_id p) = op_project_id o) (projects_tbl db)) as Hin
        by (by apply list_elem_of_filter).
      destruct (filter _ _) as [|r0 rs] eqn:Hfilter; [by apply elem_of_nil in Hin|].
      by apply list_elem_of_fmap_2.
    + destruct (filter _ _) as [|r0 rs].
      * exists None. split; [by left|by right].
      * exists (Some r0). split; [by left|by right].
Qed.

Lemma elem_of_visible_addresses db project a :
  a ∈ (λ x, node_address x.2) <$>
        filter (λ x, project_visible (Text project) x.1.1 x.1.2) (join_projects_nodes db) ↔
  ∃ n, n ∈ nodes_tbl db ∧ node_address n = a ∧ has_visible_operation db project n.
Proof.
  rewrite list_elem_of_fmap. split.
  - intros ([[o p] n] & -> & Hx). apply list_elem_of_filter in Hx as [Hv Hx]. simpl in *.
    apply elem_of_join_projects_nodes in Hx as (Ho & Hp & Hn & Hj).
    exists n. split; [done|]. split; [done|]. exists o. split; [done|]. split; [done|].
    apply left_join_projects_visible. eauto.
  - intros (n & Hn & <- & o & Ho & Hj & Hv).
    apply left_join_projects_visible in Hv as (p & Hp & Hv).
    exists (o, p, n). split; [done|]. apply list_elem_of_filter. split; [done|].
    by apply elem_of_join_projects_nodes.
Qed.

(** C7: on a store that works GetNodesWithRunningOperations returns, without
    duplicates, the addresses of the nodes that have an operation of the named
    project or an operation without project; with addresses that identify
    nodes, a node is listed exactly when it has such an operation, so a node
    whose operations all belong to other projects is left out. *)
Theorem GetNodesWithRunningOperations_visible (c : ClusterTx) (project : string) (tx : Tx) :
  faults tx = no_faults →
  ∃ l,
    (GetNodesWithRunningOperations c project tx).1 = (l, None) ∧
    NoDup l ∧
    (∀ a, a ∈ l ↔
       ∃ n, n ∈ nodes_tbl (db tx) ∧ node_address n = a ∧ has_visible_operation (db tx) project n) ∧
    (NoDup (node_address <$> nodes_tbl (db tx)) →
     ∀ n, n ∈ nodes_tbl (db tx) →
       (node_address n ∈ l ↔ has_visible_operation (db tx) project n) ∧
       ((∀ o, o ∈ operations_tbl (db tx) → op_node_id o = node_id n → ¬ visible_in (db tx) project o) →
        node_address n ∉ l)).
Proof.
  intros Hf. eexists. split; [by apply GetNodesWithRunningOperations_run|].
  split; [apply NoDup_distinct|].
  assert (∀ a, a ∈ distinct ((λ x, node_address x.2) <$>
       filter (λ x, project_visible (Text project) x.1.1 x.1.2) (join_projects_nodes (db tx))) ↔
       ∃ n, n ∈ nodes_tbl (db tx) ∧ node_address n = a ∧ has_visible_operation (db tx) project n) as Hmem.
  { intros a. rewrite elem_of_distinct. apply elem_of_visible_addresses. }
  split; [done|]. intros Hnd n Hn.
  assert (node_address n ∈ distinct ((λ x, node_address x.2) <$>
       filter (λ x, project_visible (Text project) x.1.1 x.1.2) (join_projects_nodes (db tx))) ↔
       has_visible_operation (db tx) project n) as Hnode.
  { rewrite Hmem. split; [|by eauto].
    intros (n' & Hn' & Ha & Hv).
    by rewrite <- (key_determines_row node_address _ n' n Hnd Hn' Hn Ha). }
  split; [done|]. intros Hall. rewrite Hnode. intros (o & Ho & Hj & Hv). by eapply Hall.
Qed.

Lemma GetNodesWithRunningOperations_visible_witness :
  (GetNodesWithRunningOperations node1 "default" example_tx).1 = (["10.0.0.1"], None) ∧
  "10.0.0.2" ∉ (GetNodesWithRunningOperations node1 "default" example_tx).1.1.
Proof.
  destruct (GetNodesWithRunningOperations_visible node1 "default" example_tx eq_refl)
    as (l & Hr & Hnd & Hmem & Hnode).
  split; [vm_compute; reflexivity|]. rewrite Hr. simpl.
  apply (Hnode ltac:(apply (bool_decide_unpack _); vm_compute; exact I) (mk_nodes_row 2 "10.0.0.2")).
  - apply (bool_decide_unpack _). vm_compute. exact I.
  - intros o Ho Hj [(p & Hp & Hid & Hname)|Hnull].
    + unfold example_tx, example_db in Ho, Hp. simpl in Ho, Hp, Hj.
      repeat (apply elem_of_cons in Ho as [->|Ho]); try (by apply elem_of_nil in Ho); simpl in *; try done.
      repeat (apply elem_of_cons in Hp as [->|Hp]); try (by apply elem_of_nil in Hp); simpl in *; done.
    + unfold example_tx, example_db in Ho. simpl in Ho, Hj.
      repeat (apply elem_of_cons in Ho as [->|Ho]); try (by apply elem_of_nil in Ho); simpl in *; done.
Defined.

(** ** Creating *)

Lemma UpsertObject_run uuid node typ pid tx :
  UpsertObject "operations" ["uuid"; "node_id"; "type"; "project_id"] (upsert_args uuid node typ pid) tx =
    let tx1 := logged [EvExec (UpsertObject_sql "operations" operations_columns) (upsert_args uuid node typ pid)] tx in
    match exec_fault (faults tx) with
    | Some e => ((-1, Some e), tx1)
    | None =>
        match upsert_operation (db tx) uuid node typ pid with
        | inl e => ((-1, Some e), tx1)
        | inr out =>
            (match last_insert_id_fault (faults tx) with
             | Some e => (-1, Some e)
             | None => (out_inserted out, None)
             end,
             {| db := out_db out; faults := faults tx; log := log tx1 |})
        end
    end.
Proof.
  unfold UpsertObject. unfold_store.
  destruct (exec_fault (faults tx)); simpl; [done|].
  destruct pid as [p|]; simpl.
  - destruct (upsert_operation (db tx) uuid node typ (Some p)) as [e|out]; simpl; [done|].
    unfold LastInsertId. simpl. by destruct (last_insert_id_fault (faults tx)).
  - destruct (upsert_operation (db tx) uuid node typ None) as [e|out]; simpl; [done|].
    unfold LastInsertId. simpl. by destruct (last_insert_id_fault (faults tx)).
Qed.

Lemma GetProjectID_state c name tx :
  (GetProjectID c name tx).2 = logged [EvQuery GetProjectID_stmt [Text name]] tx.
Proof.
  unfold GetProjectID. unfold mbind, M_bind.
  pose proof (tx_Query_state GetProjectID_stmt [Text name] tx) as Hs.
  destruct (tx_Query GetProjectID_stmt [Text name] tx) as [[rows err] tx1]. simpl in *. subst tx1.
  unfold mret, M_ret. by repeat case_match.
Qed.

Lemma GetProjectID_value c name tx id :
  (GetProjectID c name tx).1 = (id, None) →
  ∃ p, p ∈ projects_tbl (db tx) ∧ project_name p = name ∧ project_id p = id.
Proof.
  unfold GetProjectID. unfold_store.
  destruct (query_fault (faults tx)); simpl; [done|].
  assert (∀ p, p ∈ filter (λ p, Text (project_name p) = Text name) (projects_tbl (db tx)) →
               p ∈ projects_tbl (db tx) ∧ project_name p = name) as Hfilter.
  { intros p [Hn Hp]%list_elem_of_filter. split; [done|congruence]. }
  destruct (rows_fault (faults tx)) as [[n e]|]; simpl.
  - rewrite <- fmap_take.
    destruct (take n _) as [|p l] eqn:Ht; simpl; [done|].
    intros [= <-]. exists p. destruct (Hfilter p) as [? ?]; [|done].
    eapply subseteq_take. rewrite Ht. by left.
  - destruct (filter _ _) as [|p l] eqn:Hl; simpl; [done|].
    intros [= <-]. exists p. destruct (Hfilter p) as [? ?]; [|done]. by left.
Qed.

Lemma GetProjectID_unknown c name tx :
  faults tx = no_faults →
  (∀ p, p ∈ projects_tbl (db tx) → project_name p ≠ name) →
  (GetProjectID c name tx).1 = (-1, Some ErrNoSuchObject).
Proof.
  intros Hf Hnone. destruct tx as [d fl lg]. simpl in *. subst fl.
  unfold GetProjectID. unfold_store.
  rewrite filter_none; [done|]. intros p Hp [= Hn]. by eapply Hnone.
Qed.

Lemma CreateOperation_unfold c project uuid typ tx :
  CreateOperation c project uuid typ tx =
    if decide (project ≠ "") then
      match (GetProjectID c project tx).1 with
      | (_, Some e) => ((-1, Some (Wrap e "Fetch project ID")), (GetProjectID c project tx).2)
      | (projectID, None) =>
          UpsertObject "operations" ["uuid"; "node_id"; "type"; "project_id"]
            (upsert_args uuid (nodeID c) typ (Some projectID)) (GetProjectID c project tx).2
      end
    else
      UpsertObject "operations" ["uuid"; "node_id"; "type"; "project_id"]
        (upsert_args uuid (nodeID c) typ None) tx.
Proof.
  unfold CreateOperation. case_decide; [|done].
  unfold mbind, M_bind, mret, M_ret.
  by destruct (GetProjectID c project tx) as [[projectID [e|]] tx1].
Qed.

Lemma UpsertObject_success uuid node typ pid tx id :
  (UpsertObject "operations" ["uuid"; "node_id"; "type"; "project_id"] (upsert_args uuid node typ pid) tx).1
    = (id, None) →
  operations_tbl (db (UpsertObject "operations" ["uuid"; "node_id"; "type"; "project_id"]
                        (upsert_args uuid node typ pid) tx).2)
    = filter (λ o, op_uuid o ≠ uuid) (operations_tbl (db tx)) ++ [mk_operations_row id uuid node typ pid] ∧
  id = max_id (operations_tbl (db tx)) + 1 ∧
  last (log (UpsertObject "operations" ["uuid"; "node_id"; "type"; "project_id"]
               (upsert_args uuid node typ pid) tx).2)
    = Some (EvExec (UpsertObject_sql "operations" operations_columns) (upsert_args uuid node typ pid)).
Proof.
  rewrite UpsertObject_run. cbv zeta.
  destruct (exec_fault (faults tx)); simpl; [done|].
  unfold upsert_operation. destruct (fk_violation (db tx) node pid); simpl; [done|].
  destruct (last_insert_id_fault (faults tx)); simpl; [done|].
  intros [= <-]. split; [done|]. split; [done|]. apply last_snoc.
Qed.

Lemma UpsertObject_operations uuid node typ pid tx :
  let tx' := (UpsertObject "operations" ["uuid"; "node_id"; "type"; "project_id"]
                (upsert_args uuid node typ pid) tx).2 in
  (operations_tbl (db tx') = operations_tbl (db tx) ∨
   ∃ id, operations_tbl (db tx')
         = filter (λ o, op_uuid o ≠ uuid) (operations_tbl (db tx)) ++ [mk_operations_row id uuid node typ pid]).
Proof.
  rewrite UpsertObject_run. cbv zeta.
  destruct (exec_fault (faults tx)); simpl; [by left|].
  unfold upsert_operation. destruct (fk_violation (db tx) node pid); simpl; [by left|].
  right. by eexists.
Qed.

Lemma CreateOperation_success c project uuid typ tx id :
  (CreateOperation c project uuid typ tx).1 = (id, None) →
  ∃ pid,
    (project = "" → pid = None) ∧
    (project ≠ "" → ∃ p, p ∈ projects_tbl (db tx) ∧ project_name p = project ∧ pid = Some (project_id p)) ∧
    operations_tbl (db (CreateOperation c project uuid typ tx).2)
      = filter (λ o, op_uuid o ≠ uuid) (operations_tbl (db tx)) ++ [mk_operations_row id uuid (nodeID c) typ pid] ∧
    last (log (CreateOperation c project uuid typ tx).2)
      = Some (EvExec (UpsertObject_sql "operations" operations_columns) (upsert_args uuid (nodeID c) typ pid)).
Proof.
  rewrite CreateOperation_unfold. case_decide as Hp.
  - destruct (GetProjectID c project tx).1 as [projectID [e|]] eqn:Hg; [done|].
    intros Hup. apply UpsertObject_success in Hup as (Hops & _ & Hlog).
    rewrite GetProjectID_state in *. simpl in Hops.
    apply GetProjectID_value in Hg as (p & Hin & Hname & <-).
    exists (Some (project_id p)). split; [done|]. split; [by eauto|]. done.
  - intros Hup. apply UpsertObject_success in Hup as (Hops & _ & Hlog).
    exists None. split; [done|]. split; [|done].
    intros Hne. destruct Hp. done.
Qed.

Lemma CreateOperation_operations c project uuid typ tx :
  let tx' := (CreateOperation c project uuid typ tx).2 in
  (operations_tbl (db tx') = operations_tbl (db tx) ∨
   ∃ id pid, operations_tbl (db tx')
         = filter (λ o, op_uuid o ≠ uuid) (operations_tbl (db tx)) ++ [mk_operations_row id uuid (nodeID c) typ pid]).
Proof.
  cbv zeta. rewrite CreateOperation_unfold. case_decide as Hp.
  - destruct (GetProjectID c project tx).1 as [projectID [e|]] eqn:Hg.
    + left. by rewrite GetProjectID_state.
    + destruct (UpsertObject_operations uuid (nodeID c) typ (Some projectID) (GetProjectID c project tx).2)
        as [H|[id H]]; rewrite H, GetProjectID_state; simpl; eauto.
  - destruct (UpsertObject_operations uuid (nodeID c) typ None tx) as [H|[id H]]; rewrite H; eauto.
Qed.

Lemma GetProjectID_result_log c name d fl lg lg' :
  (GetProjectID c name (mkTx d fl lg)).1 = (GetProjectID c name (mkTx d fl lg')).1.
Proof.
  unfold GetProjectID. unfold_store.
  destruct (query_fault fl); simpl; [done|].
  destruct (rows_fault fl) as [[n e]|]; simpl.
  - destruct (take n _) as [|[|v r] rs]; [done..|]. by destruct v, r.
  - destruct (_ <$> _) as [|[|v r] rs]; [done..|]. by destruct v, r.
Qed.

Lemma UpsertObject_log uuid node typ pid tx :
  log (UpsertObject "operations" ["uuid"; "node_id"; "type"; "project_id"] (upsert_args uuid node typ pid) tx).2
    = log tx ++ [EvExec (UpsertObject_sql "operations" operations_columns) (upsert_args uuid node typ pid)].
Proof.
  rewrite UpsertObject_run. cbv zeta.
  destruct (exec_fault (faults tx)); simpl; [done|].
  by destruct (upsert_operation (db tx) uuid node typ pid).
Qed.

Lemma fk_respected db node pid :
  node ∈ node_id <$> nodes_tbl db →
  (∀ p, pid = Some p → p ∈ project_id <$> projects_tbl db) →
  fk_violation db node pid = false.
Proof.
  intros Hn Hp. unfold fk_violation.
  rewrite bool_decide_eq_false_2 by (by intros H; apply H). simpl.
  destruct pid as [p|]; [|done].
  apply bool_decide_eq_false_2. intros H. apply H. by apply Hp.
Qed.

Lemma UpsertObject_works uuid node typ pid tx :
  faults tx = no_faults → fk_violation (db tx) node pid = false →
  (UpsertObject "operations" ["uuid"; "node_id"; "type"; "project_id"] (upsert_args uuid node typ pid) tx).1
    = (max_id (operations_tbl (db tx)) + 1, None).
Proof.
  intros Hf Hfk. rewrite UpsertObject_run. cbv zeta. rewrite Hf. simpl.
  unfold upsert_operation. by rewrite Hfk.
Qed.

Lemma GetProjectID_found c name tx :
  faults tx = no_faults →
  (∃ p, p ∈ projects_tbl (db tx) ∧ project_name p = name) →
  ∃ p, p ∈ projects_tbl (db tx) ∧ project_name p = name ∧
       (GetProjectID c name tx).1 = (project_id p, None).
Proof.
  intros Hf (p & Hp & Hname). destruct tx as [d fl lg]. simpl in *. subst fl.
  unfold GetProjectID. unfold_store.
  destruct (filter (λ p, Text (project_name p) = Text name) (projects_tbl d)) as [|p0 ps] eqn:Hfilter.
  - exfalso. eapply (filter_nil_not_elem_of _ _ p Hfilter); [by rewrite Hname|done].
  - assert (p0 ∈ filter (λ p, Text (project_name p) = Text name) (projects_tbl d)) as Hin
      by (rewrite Hfilter; by left).
    apply list_elem_of_filter in Hin as [[= Hn] Hin]. by exists p0.
Qed.

Lemma CreateOperation_works c project uuid typ tx :
  faults tx = no_faults →
  nodeID c ∈ node_id <$> nodes_tbl (db tx) →
  (project ≠ "" → ∃ p, p ∈ projects_tbl (db tx) ∧ project_name p = project) →
  (CreateOperation c project uuid typ tx).1 = (max_id (operations_tbl (db tx)) + 1, None).
Proof.
  intros Hf Hn Hp. rewrite CreateOperation_unfold. case_decide as Hproject.
  - destruct (GetProjectID_found c project tx Hf (Hp Hproject)) as (p & Hin & Hname & ->).
    rewrite GetProjectID_state.
    rewrite UpsertObject_works; [done|done|]. simpl.
    apply fk_respected; [done|]. intros ? [= <-]. by apply list_elem_of_fmap_2.
  - rewrite UpsertObject_works; [done|done|]. by apply fk_respected.
Qed.

(** C4: CreateOperation with the empty project looks no project up, sends
    the upsert with a NULL project_id and, on a store that works, stores the
    row with it; with another project it looks the name up, and when the
    lookup fails it returns -1 with that error wrapped and writes nothing,
    which for an unknown name on a store that works is ErrNoSuchObject; on
    success it has sent the upsert of (uuid, node of the transaction, type,
    project id) and returns the id of the row that now holds them; and on a
    store that works it succeeds whenever the node of the transaction exists
    and the project, if named, is known. *)
Theorem CreateOperation_local_upsert (c : ClusterTx) (project uuid : string) (typ : OperationType) (tx : Tx) :
  let r := CreateOperation c project uuid typ tx in
  (project ≠ "" → ∀ e, (GetProjectID c project tx).1.2 = Some e →
     r.1 = (-1, Some (Wrap e "Fetch project ID")) ∧ db r.2 = db tx) ∧
  (project ≠ "" → faults tx = no_faults →
     (∀ p, p ∈ projects_tbl (db tx) → project_name p ≠ project) →
     ∃ e, r.1 = (-1, Some e) ∧ Cause e = ErrNoSuchObject ∧ db r.2 = db tx) ∧
  (∀ id, r.1 = (id, None) →
     ∃ pid,
       (project = "" → pid = None) ∧
       (project ≠ "" → ∃ p, p ∈ projects_tbl (db tx) ∧ project_name p = project ∧ pid = Some (project_id p)) ∧
       operations_tbl (db r.2)
         = filter (λ o, op_uuid o ≠ uuid) (operations_tbl (db tx)) ++ [mk_operations_row id uuid (nodeID c) typ pid] ∧
       last (log r.2)
         = Some (EvExec "INSERT OR REPLACE INTO operations (uuid, node_id, type, project_id) VALUES (?, ?, ?, ?)"
                   [Text uuid; Int (nodeID c); Int typ; from_option Int Null pid])) ∧
  (project = "" →
     trace (CreateOperation c project uuid typ) tx
       = [EvExec "INSERT OR REPLACE INTO operations (uuid, node_id, type, project_id) VALUES (?, ?, ?, ?)"
            [Text uuid; Int (nodeID c); Int typ; Null]]) ∧
  (project = "" → faults tx = no_faults → nodeID c ∈ node_id <$> nodes_tbl (db tx) →
     ∃ id, r.1 = (id, None) ∧
           operations_tbl (db r.2)
             = filter (λ o, op_uuid o ≠ uuid) (operations_tbl (db tx))
               ++ [mk_operations_row id uuid (nodeID c) typ None]) ∧
  (project ≠ "" → faults tx = no_faults → nodeID c ∈ node_id <$> nodes_tbl (db tx) →
     (∃ p, p ∈ projects_tbl (db tx) ∧ project_name p = project) →
     ∃ id p, p ∈ projects_tbl (db tx) ∧ project_name p = project ∧ r.1 = (id, None) ∧
             operations_tbl (db r.2)
               = filter (λ o, op_uuid o ≠ uuid) (operations_tbl (db tx))
                 ++ [mk_operations_row id uuid (nodeID c) typ (Some (project_id p))]).
Proof.
  intros r. subst r.
  assert (project ≠ "" → ∀ e, (GetProjectID c project tx).1.2 = Some e →
     (CreateOperation c project uuid typ tx).1 = (-1, Some (Wrap e "Fetch project ID")) ∧
     db (CreateOperation c project uuid typ tx).2 = db tx) as Hfail.
  { intros Hp e He. rewrite CreateOperation_unfold, decide_True by done.
    destruct (GetProjectID c project tx).1 as [projectID err]. simpl in He. subst err.
    by rewrite GetProjectID_state. }
  split; [done|]. split.
  { intros Hp Hf Hnone. destruct (Hfail Hp ErrNoSuchObject) as [Hr Hdb].
    { by rewrite GetProjectID_unknown. }
    eexists. split; [done|]. done. }
  split; [intros id Hid; by apply CreateOperation_success|].
  split.
  { intros ->. unfold trace. rewrite CreateOperation_unfold, decide_False by (by intros H; apply H).
    by rewrite UpsertObject_log. }
  split.
  - intros Hempty Hf Hn.
    assert ((CreateOperation c project uuid typ tx).1 = (max_id (operations_tbl (db tx)) + 1, None)) as Hok.
    { apply CreateOperation_works; [done|done|]. by intros []. }
    destruct (CreateOperation_success _ _ _ _ _ _ Hok) as (pid & Hnull & _ & Hops & _).
    rewrite (Hnull Hempty) in Hops. eauto.
  - intros Hproject Hf Hn Hp.
    assert ((CreateOperation c project uuid typ tx).1 = (max_id (operations_tbl (db tx)) + 1, None)) as Hok.
    { by apply CreateOperation_works. }
    destruct (CreateOperation_success _ _ _ _ _ _ Hok) as (pid & _ & Hsome & Hops & _).
    destruct (Hsome Hproject) as (p & Hin & Hname & ->). eauto 10.
Qed.

Lemma CreateOperation_local_upsert_witness :
  (CreateOperation node1 "other" "abc-1" 9 example_tx).1 = (4, None) ∧
  operations_tbl (db (CreateOperation node1 "other" "abc-1" 9 example_tx).2)
    = operations_tbl example_db ++ [mk_operations_row 4 "abc-1" 1 9 (Some 11)] ∧
  (CreateOperation node1 "missing" "abc-1" 9 example_tx).1
    = (-1, Some (Wrap ErrNoSuchObject "Fetch project ID")) ∧
  (CreateOperation node1 "" "abc-1" 9 example_tx).1 = (4, None) ∧
  operations_tbl (db (CreateOperation node1 "" "abc-1" 9 example_tx).2)
    = operations_tbl example_db ++ [mk_operations_row 4 "abc-1" 1 9 None] ∧
  trace (CreateOperation node1 "" "abc-1" 9) example_tx
    = [EvExec "INSERT OR REPLACE INTO operations (uuid, node_id, type, project_id) VALUES (?, ?, ?, ?)"
         [Text "abc-1"; Int 1; Int 9; Null]].
Proof.
  destruct (CreateOperation_local_upsert node1 "other" "abc-1" 9 example_tx) as (_ & _ & Hok & _).
  destruct (CreateOperation_local_upsert node1 "missing" "abc-1" 9 example_tx) as (Hfail & _).
  destruct (CreateOperation_local_upsert node1 "" "abc-1" 9 example_tx)
    as (_ & _ & _ & Htrace & Hempty & _).
  split; [vm_compute; reflexivity|]. split.
  { destruct (Hok 4) as (pid & _ & _ & Hops & _); [vm_compute; reflexivity|].
    vm_compute. reflexivity. }
  split; [apply (Hfail ltac:(done) ErrNoSuchObject); vm_compute; reflexivity|].
  destruct (Hempty eq_refl eq_refl) as (id & Hid & Hops).
  { apply (bool_decide_unpack _). vm_compute. exact I. }
  assert (id = 4) as -> by (vm_compute in Hid; congruence).
  split; [exact Hid|]. split; [rewrite Hops; vm_compute; reflexivity|].
  by apply Htrace.
Defined.

(** ** One row per uuid *)

Lemma CreateOperation_projects c project uuid typ tx :
  projects_tbl (db (CreateOperation c project uuid typ tx).2) = projects_tbl (db tx).
Proof.
  rewrite CreateOperation_unfold. case_decide.
  - destruct (GetProjectID c project tx).1 as [projectID [e|]]; [by rewrite GetProjectID_state|].
    rewrite UpsertObject_run, GetProjectID_state. cbv zeta. simpl.
    unfold upsert_operation.
    destruct (exec_fault (faults tx)); simpl; [done|]. by destruct (fk_violation _ _ _).
  - rewrite UpsertObject_run. cbv zeta. unfold upsert_operation.
    destruct (exec_fault (faults tx)); simpl; [done|]. by destruct (fk_violation _ _ _).
Qed.

Lemma rows_with_uuid_upserted (ops : list operations_row) (row : operations_row) :
  filter (λ o, op_uuid o = op_uuid row) (filter (λ o, op_uuid o ≠ op_uuid row) ops ++ [row]) = [row].
Proof.
  rewrite filter_app, (filter_after_delete (λ o, op_uuid o = op_uuid row)).
  by rewrite filter_cons_True.
Qed.

Lemma NoDup_uuid_upserted (ops : list operations_row) (row : operations_row) :
  NoDup (op_uuid <$> ops) →
  NoDup (op_uuid <$> filter (λ o, op_uuid o ≠ op_uuid row) ops ++ [row]).
Proof.
  intros Hnd. rewrite fmap_app. apply NoDup_app. split; [|split].
  - eapply sublist_NoDup; [exact Hnd|]. apply fmap_sublist, sublist_filter.
  - intros u Hu. apply list_elem_of_fmap in Hu as (o & -> & Ho).
    apply list_elem_of_filter in Ho as [Hne _]. simpl. by intros Hin%list_elem_of_singleton.
  - simpl. apply NoDup_singleton.
Qed.

Lemma RemoveOperation_sublist c uuid tx :
  operations_tbl (db (RemoveOperation c uuid tx).2) `sublist_of` operations_tbl (db tx).
Proof.
  destruct (exec_fault (faults tx)) as [e|] eqn:He.
  - by rewrite (RemoveOperation_exec_fault _ _ _ e He).
  - rewrite (RemoveOperation_run _ _ _ He). simpl. apply sublist_filter.
Qed.

Lemma removeNodeOperations_sublist c n tx :
  operations_tbl (db (removeNodeOperations c n tx).2) `sublist_of` operations_tbl (db tx).
Proof.
  destruct (exec_fault (faults tx)) as [e|] eqn:He.
  - by rewrite (removeNodeOperations_exec_fault _ _ _ e He).
  - rewrite (removeNodeOperations_run _ _ _ He). simpl. apply sublist_filter.
Qed.

Lemma SelectStrings_db query args tx : db (SelectStrings query args tx).2 = db tx.
Proof.
  unfold SelectStrings, mbind, M_bind, mret, M_ret.
  pose proof (tx_Query_state query args tx) as Hs.
  destruct (tx_Query query args tx) as [[rows err] tx1]. simpl in *. subst tx1.
  by repeat case_match.
Qed.

Lemma GetOperationsOfType_db c project typ tx : db (GetOperationsOfType c project typ tx).2 = db tx.
Proof.
  unfold GetOperationsOfType, mbind, M_bind, mret, M_ret.
  pose proof (tx_Query_state GetOperationsOfType_stmt [Text project; Int typ] tx) as Hs.
  destruct (tx_Query _ _ tx) as [[rows err] tx1]. simpl in *. subst tx1.
  by repeat case_match.
Qed.

Lemma GetOperationWithID_db c opID tx : db (GetOperationWithID c opID tx).2 = db tx.
Proof.
  unfold GetOperationWithID, mbind, M_bind, mret, M_ret.
  pose proof (operations_db c "id=?" [Int opID] tx) as Hs.
  by destruct (operations c "id=?" [Int opID] tx) as [[ops [e|]] tx1].
Qed.

Lemma GetOperationByUUID_db c uuid tx : db (GetOperationByUUID c uuid tx).2 = db tx.
Proof.
  unfold GetOperationByUUID, mbind, M_bind, mret, M_ret.
  pose proof (operations_db c "uuid=?" [Text uuid] tx) as Hs.
  by destruct (operations c "uuid=?" [Text uuid] tx) as [[ops [e|]] tx1].
Qed.

Lemma step_keeps_uuids_distinct tx tx' :
  step tx tx' → NoDup (op_uuid <$> operations_tbl (db tx)) → NoDup (op_uuid <$> operations_tbl (db tx')).
Proof.
  intros Hstep Hnd. destruct Hstep.
  - destruct (CreateOperation_operations c project uuid typ tx) as [->|(id & pid & ->)]; [done|].
    by apply (NoDup_uuid_upserted _ (mk_operations_row id uuid (nodeID c) typ pid)).
  - eapply sublist_NoDup; [exact Hnd|]. apply fmap_sublist, RemoveOperation_sublist.
  - eapply sublist_NoDup; [exact Hnd|]. apply fmap_sublist, removeNodeOperations_sublist.
  - unfold GetLocalOperations. by rewrite operations_db.
  - unfold GetLocalOperationsUUIDs. by rewrite SelectStrings_db.
  - unfold GetNodesWithRunningOperations. by rewrite SelectStrings_db.
  - by rewrite GetOperationsOfType_db.
  - by rewrite GetOperationWithID_db.
  - by rewrite GetOperationByUUID_db.
  - done.
  - done.
Qed.

Lemma reachable_uuids_distinct tx :
  reachable tx → NoDup (op_uuid <$> operations_tbl (db tx)).
Proof.
  induction 1 as [tx Hempty|tx tx' _ IH Hstep].
  - rewrite Hempty. apply NoDup_nil_2.
  - by eapply step_keeps_uuids_distinct.
Qed.

(** C5: after two successful CreateOperation calls with the same uuid there
    is exactly one row with that uuid, and it carries the node, the type and
    the project of the second call; in every state reached from an empty
    table by calls of the accessors, whatever the store reports and whatever
    happens to the other tables, there is at most one row per uuid. *)
Theorem CreateOperation_one_row_per_uuid :
  (∀ c1 c2 project1 project2 typ1 typ2 uuid tx,
     let r1 := CreateOperation c1 project1 uuid typ1 tx in
     let r2 := CreateOperation c2 project2 uuid typ2 r1.2 in
     r1.1.2 = None → r2.1.2 = None →
     ∃ pid,
       rows_with_uuid (db r2.2) uuid = [mk_operations_row r2.1.1 uuid (nodeID c2) typ2 pid] ∧
       (project2 = "" → pid = None) ∧
       (project2 ≠ "" →
          ∃ p, p ∈ projects_tbl (db tx) ∧ project_name p = project2 ∧ pid = Some (project_id p))) ∧
  (∀ tx, reachable tx → ∀ uuid, (length (rows_with_uuid (db tx) uuid) ≤ 1)%nat).
Proof.
  split.
  - intros c1 c2 project1 project2 typ1 typ2 uuid tx r1 r2 _ H2. subst r2.
    destruct (CreateOperation c2 project2 uuid typ2 r1.2).1 as [id err] eqn:Hr. simpl in H2. subst err.
    apply CreateOperation_success in Hr as (pid & Hnull & Hproj & Hops & _).
    exists pid. unfold rows_with_uuid. rewrite Hops. split; [|split; [done|]].
    + apply (rows_with_uuid_upserted _ (mk_operations_row id uuid (nodeID c2) typ2 pid)).
    + subst r1. by rewrite CreateOperation_projects in Hproj.
  - intros tx Hreach uuid. apply (at_most_one_per_key op_uuid), reachable_uuids_distinct, Hreach.
Qed.

Lemma CreateOperation_one_row_per_uuid_witness :
  let r1 := CreateOperation node1 "default" "abc-1" 7 example_tx in
  let r2 := CreateOperation node3 "" "abc-1" 9 r1.2 in
  r1.1 = (4, None) ∧ r2.1 = (5, None) ∧
  rows_with_uuid (db r2.2) "abc-1" = [mk_operations_row 5 "abc-1" 3 9 None].
Proof.
  cbv zeta. split; [vm_compute; reflexivity|]. split; [vm_compute; reflexivity|].
  destruct (proj1 CreateOperation_one_row_per_uuid node1 node3 "default" "" 7 9 "abc-1" example_tx)
    as (pid & Hrows & Hnull & _); [vm_compute; reflexivity..|].
  rewrite Hrows, (Hnull eq_refl). vm_compute. reflexivity.
Defined.

(** ** Failures of the store *)

Lemma operations_surfaces_iteration_error c w args tx f n e :
  prepare_fault (faults tx) = None → query_fault (faults tx) = None →
  rows_fault (faults tx) = Some (n, e) →
  parse (operations_sql w) = Some (Select (SelectOperations f)) →
  length args = placeholders (Select (SelectOperations f)) →
  (operations c w args tx).1 = ([], Some (Wrap e "Failed to fetch operations")).
Proof.
  intros Hp Hq Hr Hparse Ha. unfold operations, SelectObjects. unfold_store.
  rewrite Hp, Hparse. simpl. rewrite Hq, Hparse. simpl.
  rewrite decide_False by (rewrite Ha; auto). simpl. rewrite Hr. simpl.
  rewrite <- fmap_take, scan_rows_operations. done.
Qed.

Lemma SelectStrings_surfaces_iteration_error query q args tx n e :
  query_fault (faults tx) = None → rows_fault (faults tx) = Some (n, e) →
  parse query = Some (Select q) → length args = placeholders (Select q) →
  ∃ e', (SelectStrings query args tx).1 = ([], Some e').
Proof.
  intros Hq Hr Hparse Ha. unfold SelectStrings. unfold_store.
  rewrite Hq, Hparse. simpl. rewrite decide_False by (rewrite Ha; auto). simpl. rewrite Hr. simpl.
  destruct (scan_strings _) as [values [e'|]]; simpl; eauto.
Qed.

Lemma GetOperationsOfType_drops_iteration_error c project typ tx n e :
  query_fault (faults tx) = None → rows_fault (faults tx) = Some (n, e) →
  (GetOperationsOfType c project typ tx).1 = ([], None).
Proof.
  intros Hq Hr. unfold GetOperationsOfType. unfold_store. rewrite Hq. simpl. rewrite Hr. simpl.
  rewrite <- fmap_take.
  rewrite (scan_rows_of_type (λ x : operations_row * option projects_row * nodes_row, (x.1.1, x.2))).
  done.
Qed.

(** C1 fails on GetOperationsOfType: the store answers the query, the
    iteration over the rows breaks after the first row and rows.Err reports
    it, and the accessor returns no rows with a nil error; GetLocalOperations
    on the same store returns the error. *)
Theorem GetOperationsOfType_swallows_rows_error :
  let rows := (tx_Query GetOperationsOfType_stmt [Text "default"; Int 7] example_tx_rows_err).1 in
  rows.2 = None ∧
  Rows_Err rows.1 = Some (StoreError "connection lost") ∧
  (GetOperationsOfType node1 "default" 7 example_tx_rows_err).1 = ([], None) ∧
  (GetOperationsOfType node1 "default" 7 example_tx).1
    = ([mkOperation 1 "u1" "10.0.0.1" 7; mkOperation 2 "u2" "10.0.0.1" 7], None) ∧
  (GetLocalOperations node1 example_tx_rows_err).1
    = ([], Some (Wrap (StoreError "connection lost") "Failed to fetch operations")).
Proof. cbv zeta. repeat split; vm_compute; reflexivity. Qed.

(** ** Which accessors go through the filtered query *)

Lemma operations_trace c w args tx :
  trace (operations c w args) tx = [EvPrepare (operations_sql w)] ∨
  trace (operations c w args) tx = [EvPrepare (operations_sql w); EvQuery (operations_sql w) args].
Proof.
  unfold trace, operations, SelectObjects. unfold_store.
  destruct (prepare_fault (faults tx)); simpl; [by left|].
  destruct (parse (operations_sql w)); simpl; [|by left]. right.
  by repeat (case_match; simpl).
Qed.

Lemma SelectStrings_trace query args tx :
  trace (SelectStrings query args) tx = [EvQuery query args].
Proof.
  unfold trace, SelectStrings, mbind, M_bind, mret, M_ret.
  pose proof (tx_Query_state query args {| db := db tx; faults := faults tx; log := [] |}) as Hs.
  destruct (tx_Query query args _) as [[rows err] tx1]. simpl in *. subst tx1.
  by repeat (case_match; simpl).
Qed.

Lemma GetOperationsOfType_trace c project typ tx :
  trace (GetOperationsOfType c project typ) tx = [EvQuery GetOperationsOfType_stmt [Text project; Int typ]].
Proof.
  unfold trace, GetOperationsOfType, mbind, M_bind, mret, M_ret.
  pose proof (tx_Query_state GetOperationsOfType_stmt [Text project; Int typ]
                {| db := db tx; faults := faults tx; log := [] |}) as Hs.
  destruct (tx_Query _ _ _) as [[rows err] tx1]. simpl in *. subst tx1.
  by repeat (case_match; simpl).
Qed.

Lemma not_operations_sql (stmt : string) :
  strip_prefix operations_select stmt = None → ∀ w, stmt ≠ operations_sql w.
Proof. intros Hs w ->. by rewrite operations_sql_tail, strip_prefix_app in Hs. Qed.

Lemma query_not_through_operations {A} (m : M A) c tx sql args :
  trace m tx = [EvQuery sql args] → ¬ through_operations m c tx.
Proof.
  intros Ht (w & args' & Heq). rewrite Ht in Heq.
  by destruct (operations_trace c w args' tx) as [H|H]; rewrite H in Heq.
Qed.

Lemma operations_tail_order w : ∃ before, operations_tail w = before +:+ operations_order.
Proof. unfold operations_tail. case_decide; [by eexists|]. by exists "". Qed.

Lemma operations_sorted c w args tx : Sorted Z.le (ID <$> (operations c w args tx).1.1).
Proof.
  destruct (operations_cases c w args tx) as [[e ->]|(f & _ & ->)]; simpl.
  - constructor.
  - apply select_operations_sorted.
Qed.

(** C2, the claim as stated fails: on the example store none of
    GetLocalOperationsUUIDs, GetNodesWithRunningOperations and
    GetOperationsOfType sends what a call of [operations] would send. *)
Lemma list_accessors_not_through_operations :
  ¬ through_operations (GetLocalOperationsUUIDs node1) node1 example_tx ∧
  ¬ through_operations (GetNodesWithRunningOperations node1 "default") node1 example_tx ∧
  ¬ through_operations (GetOperationsOfType node1 "default" 7) node1 example_tx.
Proof.
  split; [|split].
  - eapply query_not_through_operations. apply SelectStrings_trace.
  - eapply query_not_through_operations. apply SelectStrings_trace.
  - eapply query_not_through_operations. apply GetOperationsOfType_trace.
Qed.

Lemma GetOperationWithID_trace c opID tx :
  trace (GetOperationWithID c opID) tx = trace (operations c "id=?" [Int opID]) tx.
Proof.
  unfold trace, GetOperationWithID, mbind, M_bind, mret, M_ret.
  by destruct (operations c "id=?" [Int opID] _) as [[ops [e|]] tx'].
Qed.

Lemma GetOperationByUUID_trace c uuid tx :
  trace (GetOperationByUUID c uuid) tx = trace (operations c "uuid=?" [Text uuid]) tx.
Proof.
  unfold trace, GetOperationByUUID, mbind, M_bind, mret, M_ret.
  by destruct (operations c "uuid=?" [Text uuid] _) as [[ops [e|]] tx'].
Qed.

(** C2 as amended: GetLocalOperations goes through [operations], and so do
    GetOperationWithID and GetOperationByUUID; every statement [operations]
    sends is its select with the join of nodes followed by a tail that ends
    in ORDER BY operations.id, and what it returns is in the order of the
    ids; the three other list accessors each send one statement of their own,
    which [operations] cannot build and which has no ORDER BY,
    GetLocalOperationsUUIDs without joining nodes. *)
Theorem filtered_query_users (c : ClusterTx) (tx : Tx) :
  through_operations (GetLocalOperations c) c tx ∧
  (∀ opID, through_operations (GetOperationWithID c opID) c tx ∧
           trace (GetOperationWithID c opID) tx = trace (operations c "id=?" [Int opID]) tx) ∧
  (∀ uuid, through_operations (GetOperationByUUID c uuid) c tx ∧
           trace (GetOperationByUUID c uuid) tx = trace (operations c "uuid=?" [Text uuid]) tx) ∧
  (∀ w args,
     (∀ ev, ev ∈ trace (operations c w args) tx →
        event_sql ev = operations_select +:+ operations_tail w) ∧
     Sorted Z.le (ID <$> (operations c w args tx).1.1)) ∧
  mentions "JOIN nodes ON nodes.id = node_id" operations_select = true ∧
  (∀ w, ∃ before, operations_tail w = before +:+ "ORDER BY operations.id") ∧
  trace (GetLocalOperationsUUIDs c) tx
    = [EvQuery "SELECT uuid FROM operations WHERE node_id=?" [Int (nodeID c)]] ∧
  (∀ project,
     trace (GetNodesWithRunningOperations c project) tx
       = [EvQuery GetNodesWithRunningOperations_stmt [Text project]]) ∧
  (∀ project typ,
     trace (GetOperationsOfType c project typ) tx
       = [EvQuery GetOperationsOfType_stmt [Text project; Int typ]]) ∧
  (∀ stmt,
     stmt ∈ [GetLocalOperationsUUIDs_stmt; GetNodesWithRunningOperations_stmt; GetOperationsOfType_stmt] →
     mentions "ORDER BY" stmt = false ∧ ∀ w, stmt ≠ operations_sql w) ∧
  mentions "JOIN nodes" GetLocalOperationsUUIDs_stmt = false ∧
  mentions "JOIN nodes" GetNodesWithRunningOperations_stmt = true ∧
  mentions "JOIN nodes" GetOperationsOfType_stmt = true.
Proof.
  split; [by exists "node_id=?", [Int (nodeID c)]|].
  split.
  { intros opID. split; [|apply GetOperationWithID_trace].
    exists "id=?", [Int opID]. apply GetOperationWithID_trace. }
  split.
  { intros uuid. split; [|apply GetOperationByUUID_trace].
    exists "uuid=?", [Text uuid]. apply GetOperationByUUID_trace. }
  split.
  { intros w args. split; [|apply operations_sorted].
    intros ev Hev. rewrite <- operations_sql_tail.
    destruct (operations_trace c w args tx) as [H|H]; rewrite H in Hev;
      repeat (apply elem_of_cons in Hev as [->|Hev]; [done|]); by apply elem_of_nil in Hev. }
  split; [by vm_compute|]. split; [apply operations_tail_order|].
  split; [apply SelectStrings_trace|]. split; [intros; apply SelectStrings_trace|].
  split; [intros; apply GetOperationsOfType_trace|].
  split; [|by vm_compute].
  intros stmt Hin.
  repeat (apply elem_of_cons in Hin as [->|Hin];
          [split; [by vm_compute|apply not_operations_sql; by vm_compute]|]).
  by apply elem_of_nil in Hin.
Qed.

(** * Further properties of the accessors *)

(** ** The uuids of the local node *)

Lemma GetLocalOperationsUUIDs_run c tx :
  faults tx = no_faults →
  (GetLocalOperationsUUIDs c tx).1 =
    (op_uuid <$> filter (λ o, op_node_id o = nodeID c) (scan_operations (db tx)), None).
Proof.
  intros Hf. destruct tx as [d fl lg]. simpl in Hf. subst fl.
  unfold GetLocalOperationsUUIDs, SelectStrings. unfold_store.
  rewrite (scan_strings_text_fmap op_uuid). simpl.
  do 2 f_equal. apply list_filter_iff. intros o. split; [congruence|by intros ->].
Qed.

Lemma GetLocalOperationsUUIDs_Permutation c tx :
  faults tx = no_faults →
  (GetLocalOperationsUUIDs c tx).1.1
  ≡ₚ op_uuid <$> filter (λ o, op_node_id o = nodeID c) (operations_tbl (db tx)).
Proof.
  intros Hf. rewrite GetLocalOperationsUUIDs_run by done. simpl.
  by rewrite scan_operations_Permutation.
Qed.

(** X1: on a store that works GetLocalOperationsUUIDs returns, with a nil
    error, the uuid of every operations row whose node_id is the node of the
    transaction, once per row, and of no other row; it does not join nodes,
    so a row is listed whether or not its node exists. *)
Theorem GetLocalOperationsUUIDs_local (c : ClusterTx) (tx : Tx) :
  faults tx = no_faults →
  (GetLocalOperationsUUIDs c tx).1.2 = None ∧
  (GetLocalOperationsUUIDs c tx).1.1
    ≡ₚ op_uuid <$> filter (λ o, op_node_id o = nodeID c) (operations_tbl (db tx)) ∧
  (∀ u, u ∈ (GetLocalOperationsUUIDs c tx).1.1 ↔
        ∃ o, o ∈ operations_tbl (db tx) ∧ op_node_id o = nodeID c ∧ op_uuid o = u).
Proof.
  intros Hf. split; [by rewrite GetLocalOperationsUUIDs_run|].
  split; [by apply GetLocalOperationsUUIDs_Permutation|].
  intros u. rewrite GetLocalOperationsUUIDs_Permutation, list_elem_of_fmap by done. split.
  - intros (o & -> & Ho). apply list_elem_of_filter in Ho as [? ?]. eauto.
  - intros (o & Ho & Hn & <-). exists o. split; [done|]. by apply list_elem_of_filter.
Qed.

Lemma GetLocalOperationsUUIDs_local_witness :
  (GetLocalOperationsUUIDs node1 example_tx).1.2 = None ∧
  (GetLocalOperationsUUIDs node1 example_tx).1.1 ≡ₚ ["u1"; "u2"] ∧
  "u3" ∉ (GetLocalOperationsUUIDs node1 example_tx).1.1.
Proof.
  destruct (GetLocalOperationsUUIDs_local node1 example_tx eq_refl) as (Herr & Hperm & Hmem).
  split; [exact Herr|]. split; [rewrite Hperm; vm_compute; reflexivity|].
  rewrite Hmem. intros (o & Ho & Hn & Hu).
  unfold example_tx, example_db in Ho. simpl in Ho.
  repeat (apply elem_of_cons in Ho as [->|Ho]); try (by apply elem_of_nil in Ho); simpl in *; done.
Defined.

(** X2: on a store that works and with a consistent schema the two listings
    of the local node agree: the uuids GetLocalOperationsUUIDs returns are,
    up to order, the UUID fields of what GetLocalOperations returns. *)
Theorem local_listings_agree (c : ClusterTx) (tx : Tx) :
  faults tx = no_faults → nodes_consistent (db tx) →
  (GetLocalOperationsUUIDs c tx).1.2 = None ∧
  (GetLocalOperations c tx).1.2 = None ∧
  (GetLocalOperationsUUIDs c tx).1.1 ≡ₚ UUID <$> (GetLocalOperations c tx).1.1.
Proof.
  intros Hf Hc. split; [by rewrite GetLocalOperationsUUIDs_run|].
  rewrite GetLocalOperationsUUIDs_Permutation, GetLocalOperations_run by done. simpl.
  split; [done|].
  rewrite select_operations_consistent, filter_node_id_eq by done.
  by rewrite <- list_fmap_compose.
Qed.

Lemma local_listings_agree_witness :
  (GetLocalOperationsUUIDs node1 example_tx).1.1 ≡ₚ UUID <$> (GetLocalOperations node1 example_tx).1.1.
Proof. apply (local_listings_agree node1 example_tx eq_refl example_db_consistent). Defined.

(** ** Operations of a type *)

Lemma GetOperationsOfType_run c project typ tx :
  faults tx = no_faults →
  (GetOperationsOfType c project typ tx).1 =
    ((λ x : operations_row * option projects_row * nodes_row, Operation_of (x.1.1, x.2)) <$>
       filter (λ x, project_visible (Text project) x.1.1 x.1.2 ∧ Int (op_type x.1.1) = Int typ)
         (join_projects_nodes (db tx)), None).
Proof.
  intros Hf. destruct tx as [d fl lg]. simpl in Hf. subst fl.
  unfold GetOperationsOfType. unfold_store.
  by rewrite (scan_rows_of_type (λ x : operations_row * option projects_row * nodes_row, (x.1.1, x.2))).
Qed.

Lemma elem_of_GetOperationsOfType c project typ tx op :
  faults tx = no_faults →
  op ∈ (GetOperationsOfType c project typ tx).1.1 ↔
  ∃ o n, o ∈ operations_tbl (db tx) ∧ n ∈ nodes_tbl (db tx) ∧ node_id n = op_node_id o ∧
         op_type o = typ ∧ visible_in (db tx) project o ∧ op = Operation_of (o, n).
Proof.
  intros Hf. rewrite GetOperationsOfType_run by done. simpl. rewrite list_elem_of_fmap. split.
  - intros ([[o p] n] & -> & Hx). apply list_elem_of_filter in Hx as [[Hv Ht] Hx]. simpl in *.
    apply elem_of_join_projects_nodes in Hx as (Ho & Hp & Hn & Hj).
    exists o, n. repeat split; try done; [congruence|].
    apply left_join_projects_visible. eauto.
  - intros (o & n & Ho & Hn & Hj & Ht & Hv & ->).
    apply left_join_projects_visible in Hv as (p & Hp & Hv).
    exists (o, p, n). split; [done|]. apply list_elem_of_filter. simpl.
    split; [by rewrite Ht|]. by apply elem_of_join_projects_nodes.
Qed.



(** X13: on a store that works every node address carried by an Operation
    that GetOperationsOfType returns for a project is among the addresses
    GetNodesWithRunningOperations returns for that project. *)
Theorem typed_operations_on_listed_nodes (c c' : ClusterTx) (project : string) (typ : OperationType) (tx : Tx) :
  faults tx = no_faults →
  ∀ op, op ∈ (GetOperationsOfType c project typ tx).1.1 →
        NodeAddress op ∈ (GetNodesWithRunningOperations c' project tx).1.1.
Proof.
  intros Hf op Hop.
  apply elem_of_GetOperationsOfType in Hop as (o & n & Ho & Hn & Hj & Ht & Hv & ->); [|done].
  rewrite GetNodesWithRunningOperations_run by done. simpl.
  apply elem_of_distinct, elem_of_visible_addresses.
  exists n. split; [done|]. split; [done|]. by exists o.
Qed.

Lemma typed_operations_on_listed_nodes_witness :
  "10.0.0.2" ∈ (GetNodesWithRunningOperations node1 "other" example_tx).1.1.
Proof.
  apply (typed_operations_on_listed_nodes node3 node1 "other" 8 example_tx eq_refl
           (mkOperation 3 "u3" "10.0.0.2" 8)).
  apply (bool_decide_unpack _). vm_compute. exact I.
Defined.

(** ** What the accessors leave alone *)

(** X4: none of the six reading accessors changes a table, whatever the
    store reports: the database after the call is the database before it. *)
Theorem reading_accessors_keep_db (c : ClusterTx) (tx : Tx) :
  db (GetLocalOperations c tx).2 = db tx ∧
  db (GetLocalOperationsUUIDs c tx).2 = db tx ∧
  (∀ project, db (GetNodesWithRunningOperations c project tx).2 = db tx) ∧
  (∀ project typ, db (GetOperationsOfType c project typ tx).2 = db tx) ∧
  (∀ opID, db (GetOperationWithID c opID tx).2 = db tx) ∧
  (∀ uuid, db (GetOperationByUUID c uuid tx).2 = db tx).
Proof.
  split; [apply operations_db|]. split; [apply SelectStrings_db|].
  split; [intros; apply SelectStrings_db|]. split; [intros; apply GetOperationsOfType_db|].
  split; [intros; apply GetOperationWithID_db|intros; apply GetOperationByUUID_db].
Qed.

Lemma operations_prepare_fault c w args tx e :
  prepare_fault (faults tx) = Some e →
  operations c w args tx = (([], Some e), logged [EvPrepare (operations_sql w)] tx).
Proof. intros Hp. unfold operations, SelectObjects. unfold_store. by rewrite Hp. Qed.

Lemma operations_query_fault c w args tx f e :
  prepare_fault (faults tx) = None → query_fault (faults tx) = Some e →
  parse (operations_sql w) = Some (Select (SelectOperations f)) →
  (operations c w args tx).1 = ([], Some (Wrap e "Failed to fetch operations")).
Proof.
  intros Hp Hq Hparse. unfold operations, SelectObjects. unfold_store.
  rewrite Hp, Hparse. simpl. by rewrite Hq.
Qed.

(** X5: [operations] hands a failure of tx.Prepare to its caller as it is,
    and a failure of the query or of the iteration over its rows wrapped with
    "Failed to fetch operations", the store's error being the cause; in each
    case the slice returned is nil. *)
Theorem operations_error_context (c : ClusterTx) (w : string) (args : list value) (tx : Tx) (f : filter_clause) :
  parse (operations_sql w) = Some (Select (SelectOperations f)) →
  length args = placeholders (Select (SelectOperations f)) →
  (∀ e, prepare_fault (faults tx) = Some e → (operations c w args tx).1 = ([], Some e)) ∧
  (∀ e, prepare_fault (faults tx) = None → query_fault (faults tx) = Some e →
        (operations c w args tx).1 = ([], Some (Wrap e "Failed to fetch operations")) ∧
        Cause (Wrap e "Failed to fetch operations") = Cause e) ∧
  (∀ n e, prepare_fault (faults tx) = None → query_fault (faults tx) = None →
          rows_fault (faults tx) = Some (n, e) →
          (operations c w args tx).1 = ([], Some (Wrap e "Failed to fetch operations"))).
Proof.
  intros Hparse Ha. split; [|split].
  - intros e He. by rewrite (operations_prepare_fault _ _ _ _ e).
  - intros e Hp Hq. split; [by eapply operations_query_fault|done].
  - intros n e Hp Hq Hr. by eapply operations_surfaces_iteration_error.
Qed.

Lemma operations_error_context_witness :
  (operations node1 "uuid=?" [Text "u3"] example_tx_rows_err).1
    = ([], Some (Wrap (StoreError "connection lost") "Failed to fetch operations")).
Proof.
  destruct (operations_error_context node1 "uuid=?" [Text "u3"] example_tx_rows_err UUIDEq eq_refl eq_refl)
    as (_ & _ & Hrows).
  apply (Hrows 1%nat); reflexivity.
Defined.

(** ** More on removing *)

Lemma filter_filter_same {A} (P : A → Prop) `{∀ x, Decision (P x)} (l : list A) :
  filter P (filter P l) = filter P l.
Proof.
  induction l as [|x l IH]; [done|].
  rewrite filter_cons. destruct (decide (P x)); [|done].
  by rewrite filter_cons_True, IH.
Qed.

(** X8: whatever the store reports, RemoveOperation leaves the rows with
    another uuid and the tables nodes and projects as they were; when tx.Exec
    fails nothing changes at all; and when the store works and the number of
    rows with the uuid is not one, the rows are deleted all the same and the
    error carries that number. *)
Theorem RemoveOperation_frame (c : ClusterTx) (uuid : string) (tx : Tx) :
  let r := RemoveOperation c uuid tx in
  let n := Z.of_nat (length (rows_with_uuid (db tx) uuid)) in
  filter (λ o, op_uuid o ≠ uuid) (operations_tbl (db r.2))
    = filter (λ o, op_uuid o ≠ uuid) (operations_tbl (db tx)) ∧
  nodes_tbl (db r.2) = nodes_tbl (db tx) ∧
  projects_tbl (db r.2) = projects_tbl (db tx) ∧
  (∀ e, exec_fault (faults tx) = Some e → r.1 = Some e ∧ db r.2 = db tx) ∧
  (exec_fault (faults tx) = None → rows_affected_fault (faults tx) = None → n ≠ 1 →
     r.1 = Some (Errorf "query deleted %d rows instead of 1" [Int n]) ∧
     operations_tbl (db r.2) = filter (λ o, op_uuid o ≠ uuid) (operations_tbl (db tx))).
Proof.
  intros r n. subst r n. unfold rows_with_uuid.
  destruct (exec_fault (faults tx)) as [e|] eqn:He.
  { rewrite (RemoveOperation_exec_fault _ _ _ e He). simpl.
    repeat split; try done. }
  rewrite (RemoveOperation_run _ _ _ He). simpl.
  rewrite filter_uuid_text, filter_not_uuid_text.
  split; [apply (filter_filter_same (λ o, op_uuid o ≠ uuid))|].
  split; [done|]. split; [done|]. split; [done|].
  intros _ Ha Hn. rewrite Ha. by rewrite decide_True.
Qed.

(** X12: once the store has executed the delete of RemoveOperation for a
    uuid, a second RemoveOperation for the same uuid on a store that works
    deletes nothing and fails with "query deleted 0 rows instead of 1". *)
Theorem RemoveOperation_twice (c c' : ClusterTx) (uuid : string) (tx : Tx) :
  exec_fault (faults tx) = None → rows_affected_fault (faults tx) = None →
  let tx1 := (RemoveOperation c uuid tx).2 in
  (RemoveOperation c' uuid tx1).1 = Some (Errorf "query deleted %d rows instead of 1" [Int 0]) ∧
  db (RemoveOperation c' uuid tx1).2 = db tx1.
Proof.
  intros He Ha tx1. subst tx1.
  rewrite (RemoveOperation_run c _ _ He). simpl.
  rewrite (RemoveOperation_run c'); [|done]. simpl. rewrite Ha.
  rewrite filter_uuid_text, !filter_not_uuid_text.
  rewrite (filter_after_delete (λ o, op_uuid o = uuid)). simpl.
  split; [done|].
  rewrite (filter_filter_same (λ o, op_uuid o ≠ uuid)). by destruct (db tx).
Qed.

Lemma RemoveOperation_twice_witness :
  (RemoveOperation node1 "u1" example_tx).1 = None ∧
  (RemoveOperation node3 "u1" (RemoveOperation node1 "u1" example_tx).2).1
    = Some (Errorf "query deleted %d rows instead of 1" [Int 0]).
Proof.
  split; [vm_compute; reflexivity|].
  apply (RemoveOperation_twice node1 node3 "u1" example_tx eq_refl eq_refl).
Defined.

(** ** Creating, then reading or removing *)

Lemma max_id_bound (ops : list operations_row) (o : operations_row) :
  o ∈ ops → op_id o ≤ max_id ops.
Proof.
  induction ops as [|x ops IH]; [by intros ?%elem_of_nil|].
  intros [->|Hin]%elem_of_cons; simpl; [lia|]. specialize (IH Hin). lia.
Qed.

Lemma UpsertObject_success_store uuid node typ pid tx id :
  (UpsertObject "operations" ["uuid"; "node_id"; "type"; "project_id"] (upsert_args uuid node typ pid) tx).1
    = (id, None) →
  let tx' := (UpsertObject "operations" ["uuid"; "node_id"; "type"; "project_id"]
                (upsert_args uuid node typ pid) tx).2 in
  node ∈ node_id <$> nodes_tbl (db tx) ∧
  nodes_tbl (db tx') = nodes_tbl (db tx) ∧
  faults tx' = faults tx.
Proof.
  rewrite UpsertObject_run. cbv zeta.
  destruct (exec_fault (faults tx)); simpl; [done|].
  unfold upsert_operation, fk_violation.
  destruct (bool_decide (node ∉ node_id <$> nodes_tbl (db tx))) eqn:Hn; simpl; [done|].
  apply bool_decide_eq_false in Hn. apply dec_stable in Hn.
  destruct (match pid with Some p => _ | None => _ end); simpl; [done|].
  by destruct (last_insert_id_fault (faults tx)).
Qed.

Lemma CreateOperation_success_store c project uuid typ tx id :
  (CreateOperation c project uuid typ tx).1 = (id, None) →
  let tx' := (CreateOperation c project uuid typ tx).2 in
  id = max_id (operations_tbl (db tx)) + 1 ∧
  nodeID c ∈ node_id <$> nodes_tbl (db tx) ∧
  nodes_tbl (db tx') = nodes_tbl (db tx) ∧
  faults tx' = faults tx.
Proof.
  rewrite CreateOperation_unfold. case_decide as Hp.
  - destruct (GetProjectID c project tx).1 as [projectID [e|]] eqn:Hg; [done|].
    intros Hup. pose proof (UpsertObject_success _ _ _ _ _ _ Hup) as (_ & Hid & _).
    apply UpsertObject_success_store in Hup. rewrite GetProjectID_state in *. simpl in *. done.
  - intros Hup. pose proof (UpsertObject_success _ _ _ _ _ _ Hup) as (_ & Hid & _).
    by apply UpsertObject_success_store in Hup.
Qed.

Lemma filter_all {A} (P : A → Prop) `{∀ x, Decision (P x)} (l : list A) :
  (∀ x, x ∈ l → P x) → filter P l = l.
Proof.
  induction l as [|x l IH]; intros Hl; [done|].
  rewrite filter_cons_True, IH; [done| |]; intros; apply Hl; by constructor.
Qed.

Lemma filter_bind_join_nodes db (P : operations_row → Prop) `{∀ o, Decision (P o)} (l : list operations_row) :
  filter (λ x, P x.1) (l ≫= join_nodes db) = filter P l ≫= join_nodes db.
Proof.
  induction l as [|o l IH]; [done|].
  rewrite bind_cons, filter_app, IH, filter_cons. unfold join_nodes at 1.
  destruct (decide (P o)) as [Ho|Ho].
  - rewrite bind_cons. f_equal. rewrite filter_fmap. simpl.
    by rewrite filter_all.
  - rewrite filter_fmap. simpl. by rewrite filter_none.
Qed.

Lemma join_nodes_single db o :
  NoDup (node_id <$> nodes_tbl db) → op_node_id o ∈ node_id <$> nodes_tbl db →
  join_nodes db o = [(o, node_of db (op_node_id o))] ∧
  node_of db (op_node_id o) ∈ nodes_tbl db ∧
  node_id (node_of db (op_node_id o)) = op_node_id o.
Proof.
  intros Hpk Ho. apply list_elem_of_fmap in Ho as (n & Hn & Hin).
  unfold join_nodes, node_of. rewrite Hn.
  by rewrite (filter_key_unique node_id _ n Hpk Hin).
Qed.

Lemma select_operations_single db f args row :
  NoDup (node_id <$> nodes_tbl db) → op_node_id row ∈ node_id <$> nodes_tbl db →
  filter (filter_holds f args) (operations_tbl db) = [row] →
  select_operations db f args = [(row, node_of db (op_node_id row))].
Proof.
  intros Hpk Hn Hrow. unfold select_operations.
  rewrite (filter_bind_join_nodes db (filter_holds f args)), Hrow, bind_cons.
  destruct (join_nodes_single db row Hpk Hn) as (-> & _). done.
Qed.

Lemma filter_uuid_holds (ops : list operations_row) (uuid : string) :
  filter (filter_holds UUIDEq [Text uuid]) ops = filter (λ o, op_uuid o = uuid) ops.
Proof. apply list_filter_iff. intros o. simpl. split; [congruence|by intros ->]. Qed.

(** X6: on a store that works and where nodes.id is a key, once
    CreateOperation has succeeded GetOperationByUUID of its uuid gives, with
    a nil error, the Operation with the id CreateOperation returned, that
    uuid, the type given and the address of the node of the creating
    transaction (the upsert of query.UpsertObject being an insert or replace
    on the uuid). *)
Theorem CreateOperation_then_get (c c' : ClusterTx) (project uuid : string) (typ : OperationType) (tx : Tx) (id : Z) :
  faults tx = no_faults → NoDup (node_id <$> nodes_tbl (db tx)) →
  (CreateOperation c project uuid typ tx).1 = (id, None) →
  let tx' := (CreateOperation c project uuid typ tx).2 in
  let op := {| ID := id; UUID := uuid;
               NodeAddress := node_address (node_of (db tx) (nodeID c)); Type_ := typ |} in
  (GetOperationByUUID c' uuid tx').1 = (op, None) ∧
  node_of (db tx) (nodeID c) ∈ nodes_tbl (db tx) ∧
  node_id (node_of (db tx) (nodeID c)) = nodeID c.
Proof.
  intros Hf Hpk Hok tx' op.
  destruct (CreateOperation_success _ _ _ _ _ _ Hok) as (pid & _ & _ & Hops & _).
  destruct (CreateOperation_success_store _ _ _ _ _ _ Hok) as (Hid & Hnode & Hnodes & Hfaults).
  fold tx' in Hops, Hnodes, Hfaults. rewrite Hf in Hfaults.
  set (row := mk_operations_row id uuid (nodeID c) typ pid) in *.
  assert (node_of (db tx') (nodeID c) = node_of (db tx) (nodeID c)) as Hnode_of.
  { unfold node_of. by rewrite Hnodes. }
  assert (NoDup (node_id <$> nodes_tbl (db tx'))) as Hpk' by (by rewrite Hnodes).
  assert (op_node_id row ∈ node_id <$> nodes_tbl (db tx')) as Hnode' by (by rewrite Hnodes).
  split.
  - rewrite GetOperationByUUID_unfold, (operations_run _ _ _ _ UUIDEq) by done. simpl.
    rewrite (select_operations_single _ _ _ row); [|done|done|].
    + simpl. unfold Operation_of. simpl. by rewrite Hnode_of.
    + rewrite filter_uuid_holds, Hops. apply (rows_with_uuid_upserted _ row).
  - destruct (join_nodes_single (db tx) row Hpk Hnode) as (_ & ? & ?). done.
Qed.

Lemma CreateOperation_then_get_witness :
  let tx' := (CreateOperation node1 "" "abc-1" 7 example_tx).2 in
  (CreateOperation node1 "" "abc-1" 7 example_tx).1 = (4, None) ∧
  (GetOperationByUUID node3 "abc-1" tx').1 = (mkOperation 4 "abc-1" "10.0.0.1" 7, None).
Proof.
  cbv zeta. split; [vm_compute; reflexivity|].
  destruct (CreateOperation_then_get node1 node3 "" "abc-1" 7 example_tx 4 eq_refl) as (Hu & _).
  - apply (bool_decide_unpack _). vm_compute. exact I.
  - vm_compute. reflexivity.
  - rewrite Hu. vm_compute. reflexivity.
Defined.

(** X7: on a store that works, after a successful CreateOperation a
    RemoveOperation of the same uuid returns nil and leaves the operations
    table as it was before the creation apart from the rows with that uuid,
    and a GetOperationByUUID of the uuid then fails with ErrNoSuchObject. *)
Theorem CreateOperation_then_remove (c c' c'' : ClusterTx) (project uuid : string) (typ : OperationType) (tx : Tx) (id : Z) :
  faults tx = no_faults →
  (CreateOperation c project uuid typ tx).1 = (id, None) →
  let tx1 := (CreateOperation c project uuid typ tx).2 in
  let r := RemoveOperation c' uuid tx1 in
  r.1 = None ∧
  operations_tbl (db r.2) = filter (λ o, op_uuid o ≠ uuid) (operations_tbl (db tx)) ∧
  (GetOperationByUUID c'' uuid r.2).1 = (null, Some ErrNoSuchObject).
Proof.
  intros Hf Hok tx1 r.
  destruct (CreateOperation_success _ _ _ _ _ _ Hok) as (pid & _ & _ & Hops & _).
  destruct (CreateOperation_success_store _ _ _ _ _ _ Hok) as (_ & _ & _ & Hfaults).
  fold tx1 in Hops, Hfaults. rewrite Hf in Hfaults.
  set (row := mk_operations_row id uuid (nodeID c) typ pid) in *.
  subst r. rewrite RemoveOperation_run by (by rewrite Hfaults). simpl.
  rewrite Hfaults. simpl. rewrite filter_uuid_text, filter_not_uuid_text, Hops.
  rewrite (rows_with_uuid_upserted _ row). simpl.
  assert (filter (λ o, op_uuid o ≠ uuid) (filter (λ o, op_uuid o ≠ uuid) (operations_tbl (db tx)) ++ [row])
          = filter (λ o, op_uuid o ≠ uuid) (operations_tbl (db tx))) as Hrest.
  { rewrite filter_app, (filter_filter_same (λ o, op_uuid o ≠ uuid)).
    rewrite filter_cons_False by (by intros Hne; apply Hne). by rewrite app_nil_r. }
  split; [done|]. split; [done|].
  rewrite GetOperationByUUID_unfold, (operations_run _ _ _ _ UUIDEq) by done. simpl.
  rewrite select_operations_none; [done|]. simpl.
  rewrite filter_uuid_holds, Hrest. apply (filter_after_delete (λ o, op_uuid o = uuid)).
Qed.

Lemma CreateOperation_then_remove_witness :
  let tx1 := (CreateOperation node1 "" "abc-1" 7 example_tx).2 in
  (RemoveOperation node1 "abc-1" tx1).1 = None ∧
  operations_tbl (db (RemoveOperation node1 "abc-1" tx1).2) = operations_tbl example_db ∧
  (GetOperationByUUID node1 "abc-1" (RemoveOperation node1 "abc-1" tx1).2).1 = (null, Some ErrNoSuchObject).
Proof.
  cbv zeta.
  destruct (CreateOperation_then_remove node1 node1 node1 "" "abc-1" 7 example_tx 4 eq_refl)
    as (Hr & Hops & Hget); [vm_compute; reflexivity|].
  split; [exact Hr|]. split; [rewrite Hops; vm_compute; reflexivity|exact Hget].
Defined.

(** ** What CreateOperation sends *)

(** X9: CreateOperation with the empty project sends the store the upsert
    alone, with a NULL project_id and without looking any project up; with
    another project it first sends the lookup of GetProjectID, and sends the
    upsert, with the id found, only when the lookup succeeded. *)
Theorem CreateOperation_statements (c : ClusterTx) (project uuid : string) (typ : OperationType) (tx : Tx) :
  let insert := "INSERT OR REPLACE INTO operations (uuid, node_id, type, project_id) VALUES (?, ?, ?, ?)" in
  (project = "" →
     trace (CreateOperation c project uuid typ) tx
       = [EvExec insert [Text uuid; Int (nodeID c); Int typ; Null]]) ∧
  (project ≠ "" →
     (∀ e, (GetProjectID c project tx).1.2 = Some e →
        trace (CreateOperation c project uuid typ) tx = [EvQuery GetProjectID_stmt [Text project]]) ∧
     (∀ projectID, (GetProjectID c project tx).1 = (projectID, None) →
        trace (CreateOperation c project uuid typ) tx
          = [EvQuery GetProjectID_stmt [Text project];
             EvExec insert [Text uuid; Int (nodeID c); Int typ; Int projectID]])).
Proof.
  cbv zeta. unfold trace. split.
  - intros ->. rewrite CreateOperation_unfold, decide_False by (by intros H; apply H).
    by rewrite UpsertObject_log.
  - intros Hp. destruct tx as [d fl lg]. simpl.
    rewrite (GetProjectID_result_log c project d fl lg []).
    split.
    + intros e He. rewrite CreateOperation_unfold, decide_True by done.
      destruct (GetProjectID c project (mkTx d fl [])).1 as [projectID err]. simpl in He. subst err.
      by rewrite GetProjectID_state.
    + intros projectID Hg. rewrite CreateOperation_unfold, decide_True by done.
      rewrite Hg, UpsertObject_log, GetProjectID_state. done.
Qed.

Lemma CreateOperation_statements_witness :
  trace (CreateOperation node1 "" "abc-1" 7) example_tx
    = [EvExec "INSERT OR REPLACE INTO operations (uuid, node_id, type, project_id) VALUES (?, ?, ?, ?)"
         [Text "abc-1"; Int 1; Int 7; Null]] ∧
  trace (CreateOperation node1 "missing" "abc-1" 7) example_tx
    = [EvQuery GetProjectID_stmt [Text "missing"]].
Proof.
  destruct (CreateOperation_statements node1 "" "abc-1" 7 example_tx) as [Hempty _].
  destruct (CreateOperation_statements node1 "missing" "abc-1" 7 example_tx) as [_ Hproj].
  split; [by apply Hempty|].
  apply (proj1 (Hproj ltac:(done)) ErrNoSuchObject). vm_compute. reflexivity.
Defined.

(** X14: whatever the store reports and whatever it returns, CreateOperation
    leaves the rows with another uuid and the tables nodes and projects as
    they were (the upsert of query.UpsertObject replacing on the uuid only). *)
Theorem CreateOperation_frame (c : ClusterTx) (project uuid : string) (typ : OperationType) (tx : Tx) :
  let tx' := (CreateOperation c project uuid typ tx).2 in
  filter (λ o, op_uuid o ≠ uuid) (operations_tbl (db tx'))
    = filter (λ o, op_uuid o ≠ uuid) (operations_tbl (db tx)) ∧
  nodes_tbl (db tx') = nodes_tbl (db tx) ∧
  projects_tbl (db tx') = projects_tbl (db tx).
Proof.
  cbv zeta. split; [|split].
  - destruct (CreateOperation_operations c project uuid typ tx) as [->|(id & pid & ->)]; [done|].
    rewrite filter_app, (filter_filter_same (λ o, op_uuid o ≠ uuid)).
    rewrite filter_cons_False by (by intros Hne; apply Hne). by rewrite app_nil_r.
  - rewrite CreateOperation_unfold. case_decide.
    + destruct (GetProjectID c project tx).1 as [projectID [e|]]; [by rewrite GetProjectID_state|].
      rewrite UpsertObject_run, GetProjectID_state. cbv zeta. simpl. unfold upsert_operation.
      destruct (exec_fault (faults tx)); simpl; [done|]. by destruct (fk_violation _ _ _).
    + rewrite UpsertObject_run. cbv zeta. unfold upsert_operation.
      destruct (exec_fault (faults tx)); simpl; [done|]. by destruct (fk_violation _ _ _).
  - apply CreateOperation_projects.
Qed.

(** ** The filtered query without a filter, and the two keys *)

Lemma filter_no_filter (ops : list operations_row) :
  filter (filter_holds NoFilter []) ops = ops.
Proof. by apply filter_all. Qed.

(** X10: with the empty where clause [operations] sends its select with the
    ORDER BY and no WHERE, and on a store that works and with a consistent
    schema it returns every operation of the cluster, in the order of the ids
    and with a nil error. *)
Theorem operations_unfiltered (c : ClusterTx) (tx : Tx) :
  faults tx = no_faults → nodes_consistent (db tx) →
  ∃ ops,
    (operations c "" [] tx).1 = (ops, None) ∧
    ops ≡ₚ as_Operation (db tx) <$> operations_tbl (db tx) ∧
    Sorted Z.le (ID <$> ops) ∧
    trace (operations c "" []) tx
      = [EvPrepare (operations_select +:+ "ORDER BY operations.id");
         EvQuery (operations_select +:+ "ORDER BY operations.id") []].
Proof.
  intros Hf Hc. eexists. split; [by rewrite (operations_run _ _ _ _ NoFilter)|].
  split; [by rewrite select_operations_consistent, filter_no_filter|].
  split; [apply select_operations_sorted|].
  unfold trace. rewrite (operations_run _ _ _ _ NoFilter); done.
Qed.

Lemma operations_unfiltered_witness :
  (operations node1 "" [] example_tx).1
    = ([mkOperation 1 "u1" "10.0.0.1" 7; mkOperation 2 "u2" "10.0.0.1" 7; mkOperation 3 "u3" "10.0.0.2" 8], None).
Proof.
  destruct (operations_unfiltered node1 example_tx eq_refl example_db_consistent) as (ops & Hr & _).
  vm_compute. reflexivity.
Defined.


